(** * Defect-Detection-System: a shallow embedding of the detection core

    Sources embedded here:
    - [src/image_processor.py]  (class [ImageProcessor])
    - [src/defect_detector.py]  (class [DefectDetector])

    Conventions.
    - Python [float] values (confidences, areas, scale factors) are exact
      rationals [Q]; [int(...)] is truncation toward zero; [a // b] on
      integers is [Z.div] (floor); [a / b] on integers is true division and
      raises [ZeroDivisionError] on a zero divisor.
    - A numpy [uint8] image is a grid of integers: two-dimensional for a
      gray image, three-dimensional (rows, columns, channels) for a colour
      image.
    - Exceptions are values of the error monad [result]; a [try/except]
      that swallows the exception is a [match] on the result.
    - OpenCV itself is not part of the repository.  Its operations are the
      fields of the class [OpenCV]; the few argument checks and shape laws
      the pipeline relies on are written out where they are used. *)

From Equations Require Import Equations.
From Stdlib Require Import String Ascii.
From Stdlib Require Import ZArith QArith Qround Bool Lia List DecimalString.
Import ListNotations.

Local Open Scope string_scope.
Local Open Scope list_scope.
Local Open Scope Z_scope.

(* ===================================================================== *)
(** ** Exceptions and the error monad                                     *)
(* ===================================================================== *)

Inductive exn : Type :=
| ValueError
| TypeError
| IndexError
| ZeroDivisionError
| cv2_error.

Inductive result (A : Type) : Type :=
| Ok (a : A)
| Raise (e : exn).

Arguments Ok {A} a.
Arguments Raise {A} e.

Definition bind {A B : Type} (r : result A) (k : A -> result B) : result B :=
  match r with
  | Ok a => k a
  | Raise e => Raise e
  end.

Notation "x <- r ;; k" := (bind r (fun x => k))
  (at level 61, r at next level, right associativity).

(** [try: body / except Exception: pass], for a body that yields a list
    and a handler that leaves the list empty. *)
Definition try_or_empty {A : Type} (body : result (list A)) : list A :=
  match body with
  | Ok l => l
  | Raise _ => []
  end.

(* ===================================================================== *)
(** ** Python numbers                                                     *)
(* ===================================================================== *)

(** [int(q)]: truncation toward zero. *)
Definition py_int (q : Q) : Z := Z.quot (Qnum q) (Zpos (Qden q)).

(** [a / b] on Python integers. *)
Definition py_truediv (a b : Z) : result Q :=
  if b =? 0 then Raise ZeroDivisionError
  else Ok (inject_Z a / inject_Z b)%Q.

(** [min(a, b)] and [max(a, b)] on floats: Python returns the first
    argument unless the second is strictly smaller (resp. larger). *)
Definition py_min (a b : Q) : Q := if Qlt_le_dec b a then b else a.
Definition py_max (a b : Q) : Q := if Qlt_le_dec a b then b else a.

(** Boolean strict comparison on floats. *)
Definition Qltb (a b : Q) : bool := if Qlt_le_dec a b then true else false.

(* ===================================================================== *)
(** ** Images                                                             *)
(* ===================================================================== *)

Definition grid (P : Type) : Type := list (list P).

(** A numpy [uint8] array as the pipeline sees it: [len(image.shape)] is
    2 for [Gray] and 3 for [Color]. *)
Inductive image : Type :=
| Gray (rows : grid Z)
| Color (rows : grid (list Z)).

Definition ndim (img : image) : nat :=
  match img with
  | Gray _ => 2%nat
  | Color _ => 3%nat
  end.

Definition grid_height {P : Type} (g : grid P) : Z := Z.of_nat (length g).
Definition grid_width {P : Type} (g : grid P) : Z :=
  Z.of_nat (length (hd [] g)).

(** [image.shape[:2]], as [(height, width)]. *)
Definition shape2 (img : image) : Z * Z :=
  match img with
  | Gray g => (grid_height g, grid_width g)
  | Color g => (grid_height g, grid_width g)
  end.

(** Number of channels of the pixels of a colour grid. *)
Definition grid_channels (g : grid (list Z)) : nat :=
  length (hd [] (hd [] g)).

(** A grid is rectangular with [h] rows of [w] pixels. *)
Definition grid_has_shape {P : Type} (h w : Z) (g : grid P) : Prop :=
  Z.of_nat (length g) = h /\ Forall (fun r => Z.of_nat (length r) = w) g.

Definition has_shape (h w : Z) (img : image) : Prop :=
  match img with
  | Gray g => grid_has_shape h w g
  | Color g => grid_has_shape h w g
  end.

Definition map_grid {P R : Type} (f : P -> R) (g : grid P) : grid R :=
  map (map f) g.

(** Apply a function to every sample of an image. *)
Definition map_samples (f : Z -> Z) (img : image) : image :=
  match img with
  | Gray g => Gray (map_grid f g)
  | Color g => Color (map_grid (map f) g)
  end.

Definition grid_all {P : Type} (p : P -> Prop) (g : grid P) : Prop :=
  Forall (Forall p) g.

(** Every sample of the image satisfies [p]. *)
Definition samples_all (p : Z -> Prop) (img : image) : Prop :=
  match img with
  | Gray g => grid_all p g
  | Color g => grid_all (Forall p) g
  end.

Definition is_uint8 (v : Z) : Prop := 0 <= v <= 255.

(** [cv2.copyMakeBorder(src, top, bottom, left, right, BORDER_CONSTANT,
    value)] on a grid, with [fill] the constant border pixel. *)
Definition pad_row {P : Type} (fill : P) (left right : Z) (r : list P)
  : list P :=
  repeat fill (Z.to_nat left) ++ r ++ repeat fill (Z.to_nat right).

Definition pad_grid {P : Type} (fill : P) (top bottom left right : Z)
  (g : grid P) : grid P :=
  let w := (Z.to_nat left + length (hd [] g) + Z.to_nat right)%nat in
  repeat (repeat fill w) (Z.to_nat top)
  ++ map (pad_row fill left right) g
  ++ repeat (repeat fill w) (Z.to_nat bottom).

(** The border value [[0, 0, 0]] is a scalar: one zero per channel. *)
Definition copyMakeBorder_zero (src : image) (top bottom left right : Z)
  : result image :=
  if (top <? 0) || (bottom <? 0) || (left <? 0) || (right <? 0)
  then Raise cv2_error
  else
    match src with
    | Gray g => Ok (Gray (pad_grid 0 top bottom left right g))
    | Color g =>
        Ok (Color (pad_grid (repeat 0 (grid_channels g))
                     top bottom left right g))
    end.

(* ===================================================================== *)
(** ** The OpenCV interface                                               *)
(* ===================================================================== *)

Inductive color_code : Type :=
| COLOR_BGR2RGB
| COLOR_RGB2BGR
| COLOR_RGB2GRAY.

Definition rect : Type := (Z * Z * Z * Z)%type.   (* x, y, w, h *)
Definition point : Type := (Z * Z)%type.
Definition colour : Type := (Z * Z * Z)%type.

(** The library calls the two source files make.  Filters and detectors
    report rejected arguments by raising [cv2.error]; pixel conversions and
    drawing are total on the arrays of the pipeline.  [net_forward] stands
    for [setInput], [getLayerNames], [getUnconnectedOutLayers] and
    [forward] taken together: it yields one list of rows per output
    layer. *)
Class OpenCV : Type := {
  imread : string -> option image;
  cvtColor : image -> color_code -> image;
  resize_INTER_AREA : image -> Z -> Z -> image;
  resize_INTER_AREA_shape :
    forall img w h, 0 < w -> 0 < h ->
      has_shape h w (resize_INTER_AREA img w h);
  GaussianBlur : image -> Z * Z -> Q -> result image;
  medianBlur : image -> Z -> result image;
  bilateralFilter : image -> Z -> Q -> Q -> result image;
  Canny : image -> Q -> Q -> result image;
  dilate : image -> image -> Z -> result image;
  morphologyEx_CLOSE : image -> image -> Z -> result image;
  adaptiveThreshold_GAUSSIAN_BINARY_INV :
    image -> Z -> Z -> Q -> result image;
  contour : Type;
  findContours_EXTERNAL_SIMPLE : image -> result (list contour);
  contourArea : contour -> Q;
  boundingRect : contour -> rect;
  arcLength : contour -> bool -> Q;
  net : Type;
  blob : Type;
  readNet : string -> string -> result net;
  blobFromImage : image -> Q -> Z * Z -> bool -> bool -> blob;
  net_forward : net -> blob -> result (list (list (list Q)));
  rectangle : image -> point -> point -> colour -> Z -> image;
  getTextSize : string -> Q -> Z -> Z * Z;
  putText : image -> string -> point -> Q -> colour -> Z -> image
}.

(** [cv2.resize(src, dsize, interpolation=INTER_AREA)]: an empty [dsize]
    with no scale factors is rejected. *)
Definition cv2_resize `{OpenCV} (src : image) (dsize : Z * Z)
  : result image :=
  let '(w, h) := dsize in
  if (w <=? 0) || (h <=? 0) then Raise cv2_error
  else Ok (resize_INTER_AREA src w h).

(* ===================================================================== *)
(** ** [image_processor.py]: class [ImageProcessor]                       *)
(* ===================================================================== *)

Module ImageProcessor.

Record t : Type := { target_size : Z * Z }.

(** [__init__] *)
Definition init : t := {| target_size := (640, 640) |}.

Section WithOpenCV.
Context `{cv : OpenCV}.

(** [resize(self, image, target_size=None)] *)
Definition resize (self : t) (img : image) (tsize : option (Z * Z))
  : result image :=
  let tsize :=
    match tsize with
    | None => target_size self
    | Some ts => ts
    end in
  let '(height, width) := shape2 img in
  let '(target_width, target_height) := tsize in
  sw <- py_truediv target_width width ;;
  sh <- py_truediv target_height height ;;
  let scale := py_min sw sh in
  let new_width := py_int (inject_Z width * scale) in
  let new_height := py_int (inject_Z height * scale) in
  resized <- cv2_resize img (new_width, new_height) ;;
  if negb (new_width =? target_width) || negb (new_height =? target_height)
  then
    let pad_top := (target_height - new_height) / 2 in
    let pad_bottom := target_height - new_height - pad_top in
    let pad_left := (target_width - new_width) / 2 in
    let pad_right := target_width - new_width - pad_left in
    copyMakeBorder_zero resized pad_top pad_bottom pad_left pad_right
  else Ok resized.

(** [remove_noise(self, image, method='gaussian')] *)
Definition remove_noise (img : image) (method : string) : result image :=
  if String.eqb method "gaussian" then GaussianBlur img (5, 5) 0
  else if String.eqb method "median" then medianBlur img 5
  else if String.eqb method "bilateral" then bilateralFilter img 9 75 75
  else Ok img.

(** [np.clip(a, lo, hi)] is [minimum(maximum(a, lo), hi)]. *)
Definition np_clip (a lo hi : Q) : Q := py_min (py_max a lo) hi.

(** [astype(np.uint8)] of a float: drop the fraction, keep the low byte. *)
Definition astype_uint8 (q : Q) : Z := (py_int q) mod 256.

(** [adjust_brightness(self, image, alpha=1.0, beta=0)] *)
Definition adjust_sample (alpha beta : Q) (v : Z) : Z :=
  let image_float := inject_Z v in
  let adjusted := (alpha * image_float + beta)%Q in
  astype_uint8 (np_clip adjusted 0 255).

Definition adjust_brightness (img : image) (alpha beta : Q) : image :=
  map_samples (adjust_sample alpha beta) img.

Definition default_alpha : Q := 1.
Definition default_beta : Q := 0.

(** [grayscale(self, image)] *)
Definition grayscale (img : image) : image :=
  if Nat.eqb (ndim img) 3 then cvtColor img COLOR_RGB2GRAY else img.


End WithOpenCV.

End ImageProcessor.

(* ===================================================================== *)
(** ** Boxes and Intersection-over-Union                                  *)
(* ===================================================================== *)

Definition bbox_t : Type := (Z * Z * Z * Z)%type.   (* x1, y1, x2, y2 *)

(** The detector emits [[x, y, x + w, y + h]] for a rectangle. *)
Definition bbox_of_rect (r : rect) : bbox_t :=
  let '(x, y, w, h) := r in (x, y, x + w, y + h).

Definition bbox_area (b : bbox_t) : Z :=
  let '(x1, y1, x2, y2) := b in (x2 - x1) * (y2 - y1).

Definition bbox_inter_area (a b : bbox_t) : Z :=
  let '(ax1, ay1, ax2, ay2) := a in
  let '(bx1, by1, bx2, by2) := b in
  let iw := Z.min ax2 bx2 - Z.max ax1 bx1 in
  let ih := Z.min ay2 by2 - Z.max ay1 by1 in
  if (iw <=? 0) || (ih <=? 0) then 0 else iw * ih.

(** Area of intersection divided by area of union (a quotient by zero
    is zero in [Q]). *)
Definition iou_bbox (a b : bbox_t) : Q :=
  let i := bbox_inter_area a b in
  (inject_Z i / inject_Z (bbox_area a + bbox_area b - i))%Q.

Definition iou_rect (a b : rect) : Q :=
  iou_bbox (bbox_of_rect a) (bbox_of_rect b).

(* ===================================================================== *)
(** ** Non-Maximum Suppression                                            *)
(* ===================================================================== *)

Module NMS.

(** A candidate: its index in the caller's lists, its box, its score. *)
Definition cand : Type := (nat * rect * Q)%type.

Definition cand_index (c : cand) : nat := fst (fst c).
Definition cand_box (c : cand) : rect := snd (fst c).
Definition cand_score (c : cand) : Q := snd c.

(** Stable insertion by descending score: among equal scores the
    candidate that came first in the input stays first. *)
Fixpoint insert_desc (c : cand) (sorted : list cand) : list cand :=
  match sorted with
  | [] => [c]
  | d :: rest =>
      if Qltb (cand_score c) (cand_score d)
      then d :: insert_desc c rest
      else c :: d :: rest
  end.

Fixpoint sort_desc (l : list cand) : list cand :=
  match l with
  | [] => []
  | c :: rest => insert_desc c (sort_desc rest)
  end.

(** [b] survives next to the kept box [a]. *)
Definition compatible (thr : Q) (a b : cand) : bool :=
  negb (Qltb thr (iou_rect (cand_box b) (cand_box a))).

(** Greedy pass over the sorted candidates: keep the first, discard every
    remaining candidate whose IoU with it exceeds the threshold, go on
    with what remains. *)
Equations greedy (thr : Q) (order : list cand) : list cand
  by wf (length order) lt :=
  greedy thr [] := [];
  greedy thr (c :: rest) := c :: greedy thr (filter (compatible thr c) rest).
Next Obligation.
  clear greedy.
  induction rest as [| d rest IH]; simpl; [lia |].
  destruct (compatible thr c d); simpl; lia.
Qed.

(** Modelled from the spec: [cv2.dnn.NMSBoxes] is OpenCV code and is not
    in the repository.  Section 4.2, step 5: sort by confidence descending
    (earlier output order wins ties), greedily keep a box and discard any
    remaining box whose IoU with it exceeds the threshold, regardless of
    class label.  The result is the list of kept indices.  The score
    threshold repeats the filter the caller has already applied and takes
    no part in the suppression. *)
Definition NMSBoxes (boxes : list rect) (confidences : list Q)
  (score_threshold nms_threshold : Q) : list nat :=
  let cands :=
    combine (combine (seq 0 (length boxes)) boxes) confidences in
  map cand_index (greedy nms_threshold (sort_desc cands)).

End NMS.

(* ===================================================================== *)
(** ** [defect_detector.py]: class [DefectDetector]                       *)
(* ===================================================================== *)

(** A detection dictionary as the detector builds it. *)
Record detection : Type := {
  type : string;
  confidence : Q;
  bbox : bbox_t
}.

(** [os.path.exists] and [open(path).readlines()]. *)
Record filesystem : Type := {
  path_exists : string -> bool;
  readlines : string -> result (list string)
}.

(** [str.strip()] for ASCII white space. *)
Definition is_space (c : ascii) : bool :=
  let n := nat_of_ascii c in
  (Nat.eqb n 32 || (Nat.leb 9 n && Nat.leb n 13)
   || (Nat.leb 28 n && Nat.leb n 31))%bool.

Fixpoint lstrip (s : string) : string :=
  match s with
  | EmptyString => EmptyString
  | String c rest => if is_space c then lstrip rest else s
  end.

Fixpoint string_rev_onto (s acc : string) : string :=
  match s with
  | EmptyString => acc
  | String c rest => string_rev_onto rest (String c acc)
  end.

Definition string_rev (s : string) : string := string_rev_onto s EmptyString.

Definition strip (s : string) : string :=
  string_rev (lstrip (string_rev (lstrip s))).

(** [np.argmax]: the first index of the largest entry; [ValueError] on an
    empty sequence. *)
Fixpoint argmax_from (best_i : nat) (best : Q) (i : nat) (l : list Q) : nat :=
  match l with
  | [] => best_i
  | x :: rest =>
      if Qltb best x then argmax_from i x (S i) rest
      else argmax_from best_i best (S i) rest
  end.

Definition np_argmax (l : list Q) : result nat :=
  match l with
  | [] => Raise ValueError
  | x :: rest => Ok (argmax_from 0%nat x 1%nat rest)
  end.

(** [l[i]] *)
Definition index {A : Type} (l : list A) (i : nat) : result A :=
  match nth_error l i with
  | Some a => Ok a
  | None => Raise IndexError
  end.

(** [a / b] on Python floats. *)
Definition py_fdiv (a b : Q) : result Q :=
  if Qeq_bool b 0 then Raise ZeroDivisionError else Ok (a / b)%Q.

(** [np.pi], the double nearest to pi. *)
Definition np_pi : Q := 884279719003555 # 281474976710656.

(** [np.ones((3, 3), np.uint8)] *)
Definition ones_3x3 : image := Gray (repeat (repeat 1 3) 3).

Module DefectDetector.

Section WithOpenCV.
Context `{cv : OpenCV}.

Record t : Type := {
  image_processor : ImageProcessor.t;
  yolo_net : option net;
  yolo_classes : list string;
  use_yolo : bool
}.

Definition set_use_yolo (b : bool) (self : t) : t :=
  {| image_processor := image_processor self;
     yolo_net := yolo_net self;
     yolo_classes := yolo_classes self;
     use_yolo := b |}.

Definition set_yolo_net (n : net) (self : t) : t :=
  {| image_processor := image_processor self;
     yolo_net := Some n;
     yolo_classes := yolo_classes self;
     use_yolo := use_yolo self |}.

Definition set_yolo_classes (cs : list string) (self : t) : t :=
  {| image_processor := image_processor self;
     yolo_net := yolo_net self;
     yolo_classes := cs;
     use_yolo := use_yolo self |}.

Definition config_path : string := "models/yolov4-tiny.cfg".
Definition weights_path : string := "models/yolov4-tiny.weights".
Definition classes_path : string := "models/coco.names".

(** [_load_yolo_model(self)].  The handler of the [try] sets
    [use_yolo = False] and keeps whatever was assigned before the
    exception.  The two [setPreferable...] calls configure the network and
    leave the detector's fields alone. *)
Definition _load_yolo_model (fs : filesystem) (self : t) : t :=
  if path_exists fs config_path && path_exists fs weights_path then
    match readNet weights_path config_path with
    | Raise _ => set_use_yolo false self
    | Ok n =>
        let self := set_yolo_net n self in
        if path_exists fs classes_path then
          match readlines fs classes_path with
          | Raise _ => set_use_yolo false self
          | Ok lines =>
              set_use_yolo true (set_yolo_classes (map strip lines) self)
          end
        else set_use_yolo true self
    end
  else set_use_yolo false self.

(** [__init__(self)] *)
Definition init (fs : filesystem) : t :=
  _load_yolo_model fs
    {| image_processor := ImageProcessor.init;
       yolo_net := None;
       yolo_classes := [];
       use_yolo := false |}.

(** *** The model path *)

Definition conf_threshold : Q := 1 # 2.
Definition nms_threshold : Q := 4 # 10.

(** The three lists the row loop fills in step. *)
Record candidates : Type := {
  boxes : list rect;
  confidences : list Q;
  class_ids : list nat
}.

Definition no_candidates : candidates :=
  {| boxes := []; confidences := []; class_ids := [] |}.

(** One iteration of [for detection in output]. *)
Definition yolo_row (width height : Z) (detection : list Q)
  (acc : candidates) : result candidates :=
  let scores := skipn 5 detection in
  class_id <- np_argmax scores ;;
  conf <- index scores class_id ;;
  if Qltb conf_threshold conf then
    d0 <- index detection 0 ;;
    d1 <- index detection 1 ;;
    d2 <- index detection 2 ;;
    d3 <- index detection 3 ;;
    let center_x := py_int (d0 * inject_Z width) in
    let center_y := py_int (d1 * inject_Z height) in
    let w := py_int (d2 * inject_Z width) in
    let h := py_int (d3 * inject_Z height) in
    let x := py_int (inject_Z center_x - inject_Z w / 2) in
    let y := py_int (inject_Z center_y - inject_Z h / 2) in
    Ok {| boxes := boxes acc ++ [(x, y, w, h)];
          confidences := confidences acc ++ [conf];
          class_ids := class_ids acc ++ [class_id] |}
  else Ok acc.

Fixpoint yolo_rows (width height : Z) (rows : list (list Q))
  (acc : candidates) : result candidates :=
  match rows with
  | [] => Ok acc
  | detection :: rest =>
      acc <- yolo_row width height detection acc ;;
      yolo_rows width height rest acc
  end.

(** [for output in outputs: for detection in output: ...] *)
Fixpoint yolo_outputs (width height : Z) (outputs : list (list (list Q)))
  (acc : candidates) : result candidates :=
  match outputs with
  | [] => Ok acc
  | output :: rest =>
      acc <- yolo_rows width height output acc ;;
      yolo_outputs width height rest acc
  end.

(** [for i in indices.flatten(): ...]; an [IndexError] ends the loop in the
    handler with the detections appended so far. *)
Fixpoint yolo_emit (classes : list string) (cands : candidates)
  (indices : list nat) (detections : list detection) : list detection :=
  match indices with
  | [] => detections
  | i :: rest =>
      match nth_error (boxes cands) i,
            nth_error (class_ids cands) i,
            nth_error (confidences cands) i with
      | Some (x, y, w, h), Some class_id, Some conf =>
          let class_name :=
            if Nat.ltb class_id (length classes)
            then nth class_id classes "Unknown"
            else "Unknown" in
          yolo_emit classes cands rest
            (detections ++
             [{| type := class_name;
                 confidence := conf;
                 bbox := (x, y, x + w, y + h) |}])
      | _, _, _ => detections
      end
  end.

(** [_detect_with_yolo(self, image)] *)
Definition _detect_with_yolo (self : t) (img : image) : list detection :=
  match yolo_net self with
  | None => []
  | Some yolo =>
      let image_bgr := cvtColor img COLOR_RGB2BGR in
      let '(height, width) := shape2 image_bgr in
      let blob :=
        blobFromImage image_bgr (1 / 255) (416, 416) true false in
      match (outputs <- net_forward yolo blob ;;
             yolo_outputs width height outputs no_candidates) with
      | Raise _ => []
      | Ok cands =>
          let indices :=
            NMS.NMSBoxes (boxes cands) (confidences cands)
              conf_threshold nms_threshold in
          yolo_emit (yolo_classes self) cands indices []
      end
  end.

(** *** The crack path *)

Definition crack_min_area : Q := 100.

Definition crack_detection (area : Q) (r : rect) : detection :=
  let '(x, y, w, h) := r in
  {| type := "Crack";
     confidence := py_min (9 # 10) (area / 1000);
     bbox := (x, y, x + w, y + h) |}.

(** [for contour in contours: ...] of [_detect_cracks]; an exception ends
    the loop in the handler with the detections appended so far. *)
Fixpoint crack_loop (contours : list contour) (detections : list detection)
  : list detection :=
  match contours with
  | [] => detections
  | c :: rest =>
      let area := contourArea c in
      if Qltb crack_min_area area then
        let '(x, y, w, h) := boundingRect c in
        match py_truediv (Z.max w h) (Z.max (Z.min w h) 1) with
        | Raise _ => detections
        | Ok aspect_ratio =>
            if Qltb 3 aspect_ratio
            then crack_loop rest
                   (detections ++ [crack_detection area (x, y, w, h)])
            else crack_loop rest detections
        end
      else crack_loop rest detections
  end.

(** The stages of [_detect_cracks] up to [findContours]. *)
Definition crack_contours (gray_image : image) : result (list contour) :=
  blurred <- GaussianBlur gray_image (5, 5) 0 ;;
  edges <- Canny blurred 50 150 ;;
  let kernel := ones_3x3 in
  dilated <- dilate edges kernel 2 ;;
  closed <- morphologyEx_CLOSE dilated kernel 3 ;;
  findContours_EXTERNAL_SIMPLE closed.

(** [_detect_cracks(self, gray_image)] *)
Definition _detect_cracks (gray_image : image) : list detection :=
  try_or_empty
    (contours <- crack_contours gray_image ;;
     Ok (crack_loop contours [])).

(** *** The irregularity path *)

Definition irregularity_min_area : Q := 200.
Definition irregularity_max_area : Q := 50000.

(** [4 * np.pi * area / (perimeter ** 2) if perimeter > 0 else 0] *)
Definition circularity (area perimeter : Q) : result Q :=
  if Qltb 0 perimeter
  then py_fdiv (4 * np_pi * area) (perimeter * perimeter)
  else Ok 0%Q.

Definition irregularity_detection (area : Q) (r : rect) : detection :=
  let '(x, y, w, h) := r in
  {| type := "Surface Irregularity";
     confidence := py_min (8 # 10) (area / 5000);
     bbox := (x, y, x + w, y + h) |}.

(** [for contour in contours: ...] of [_detect_surface_irregularities]. *)
Fixpoint irregularity_loop (contours : list contour)
  (detections : list detection) : list detection :=
  match contours with
  | [] => detections
  | c :: rest =>
      let area := contourArea c in
      if Qltb irregularity_min_area area && Qltb area irregularity_max_area
      then
        let '(x, y, w, h) := boundingRect c in
        let perimeter := arcLength c true in
        match circularity area perimeter with
        | Raise _ => detections
        | Ok circ =>
            if Qltb circ (1 # 2)
            then irregularity_loop rest
                   (detections ++ [irregularity_detection area (x, y, w, h)])
            else irregularity_loop rest detections
        end
      else irregularity_loop rest detections
  end.

Definition irregularity_contours (gray_image : image)
  : result (list contour) :=
  adaptive_thresh <-
    adaptiveThreshold_GAUSSIAN_BINARY_INV gray_image 255 11 2 ;;
  findContours_EXTERNAL_SIMPLE adaptive_thresh.

(** [_detect_surface_irregularities(self, gray_image)] *)
Definition _detect_surface_irregularities (gray_image : image)
  : list detection :=
  try_or_empty
    (contours <- irregularity_contours gray_image ;;
     Ok (irregularity_loop contours [])).

(** [_detect_with_classical(self, image)] *)
Definition _detect_with_classical (self : t) (img : image)
  : list detection :=
  let detections := [] in
  let gray := ImageProcessor.grayscale img in
  let crack_detections := _detect_cracks gray in
  let detections := detections ++ crack_detections in
  let irregularity_detections := _detect_surface_irregularities gray in
  let detections := detections ++ irregularity_detections in
  detections.

(** [detect(self, image)] *)
Definition detect (self : t) (img : image) : list detection :=
  let detections := [] in
  let detections :=
    if use_yolo self
    then detections ++ _detect_with_yolo self img
    else detections in
  let classical_detections := _detect_with_classical self img in
  detections ++ classical_detections.

(** *** The annotator *)

(** Values a caller may have stored under ['confidence']. *)
Inductive pyval : Type :=
| PyFloat (q : Q)
| PyInt (z : Z)
| PyStr (s : string)
| PyNone.

(** A detection dictionary as [draw_detections] receives it: the
    ['confidence'] key may be missing, its value may be anything, and
    ['bbox'] is a list of any length. *)
Record det_dict : Type := {
  dd_bbox : list Z;
  dd_type : string;
  dd_confidence : option pyval
}.

Definition to_dict (d : detection) : det_dict :=
  let '(x1, y1, x2, y2) := bbox d in
  {| dd_bbox := [x1; y1; x2; y2];
     dd_type := type d;
     dd_confidence := Some (PyFloat (confidence d)) |}.

Definition color_map : list (string * colour) :=
  [ ("Crack", (255, 0, 0));
    ("Surface Irregularity", (0, 255, 0));
    ("Dent", (0, 0, 255));
    ("Leak", (255, 255, 0)) ].

(** [color_map.get(defect_type, (255, 255, 255))] *)
Fixpoint dict_get (m : list (string * colour)) (k : string) (default : colour)
  : colour :=
  match m with
  | [] => default
  | (k', v) :: rest => if String.eqb k k' then v else dict_get rest k default
  end.

Section Annotator.
(** [format(x, '.2f')] on a float. *)
Variable format_2f : Q -> string.

(** [f"{confidence:.2f}"]: a string has no format code ['f'], [None] has
    no format strings at all. *)
Definition format_confidence (v : pyval) : result string :=
  match v with
  | PyFloat q => Ok (format_2f q)
  | PyInt z => Ok (format_2f (inject_Z z))
  | PyStr _ => Raise ValueError
  | PyNone => Raise TypeError
  end.

(** The body of [for det in detections]. *)
Definition draw_one (annotated : image) (det : det_dict) : result image :=
  let bbox := dd_bbox det in
  let defect_type := dd_type det in
  let conf :=
    match dd_confidence det with
    | Some v => v
    | None => PyFloat 0
    end in
  let color := dict_get color_map defect_type (255, 255, 255) in
  match bbox with
  | [x1; y1; x2; y2] =>
      let annotated := rectangle annotated (x1, y1) (x2, y2) color 2 in
      text <- format_confidence conf ;;
      let label := (defect_type ++ ": " ++ text)%string in
      let label_size := getTextSize label (1 # 2) 2 in
      let label_y := Z.max y1 (snd label_size + 10) in
      let annotated :=
        rectangle annotated (x1, label_y - snd label_size - 10)
          (x1 + fst label_size, label_y) color (-1) in
      Ok (putText annotated label (x1, label_y - 5) (1 # 2)
            (255, 255, 255) 2)
  | _ => Raise ValueError
  end.

(** [draw_detections(self, image, detections)] *)
Fixpoint draw_loop (annotated : image) (detections : list det_dict)
  : result image :=
  match detections with
  | [] => Ok annotated
  | det :: rest =>
      annotated <- draw_one annotated det ;;
      draw_loop annotated rest
  end.

Definition draw_detections (img : image) (detections : list det_dict)
  : result image :=
  let annotated := img in
  draw_loop annotated detections.

End Annotator.

End WithOpenCV.

End DefectDetector.

(* ===================================================================== *)
(** ** Vocabulary of the specification                                    *)
(* ===================================================================== *)

(** The predicates and the specification-side definitions the properties
    below are stated with. *)
Module Props.
Import DefectDetector.

(** The aspect ratio as the specification words it:
    [max(w, h) / max(min(w, h), 1)]. *)
Definition spec_aspect_ratio (r : rect) : Q :=
  let '(_, _, w, h) := r in
  (inject_Z (Z.max w h) / inject_Z (Z.max (Z.min w h) 1))%Q.

Section WithOpenCV.
Context {cv : OpenCV}.

(** The specification's test for a crack: area above 100 and aspect ratio
    above 3. *)
Definition spec_is_crack (c : contour) : bool :=
  Qltb 100 (contourArea c) && Qltb 3 (spec_aspect_ratio (boundingRect c)).

(** The specification's crack detection for a contour. *)
Definition spec_crack (c : contour) : detection :=
  {| type := "Crack";
     confidence := py_min (9 # 10) (contourArea c / 1000);
     bbox := bbox_of_rect (boundingRect c) |}.

(** The specification's test for a surface irregularity: area strictly
    between 200 and 50000 and circularity below 0.5. *)
Definition spec_is_irregular (c : contour) : bool :=
  Qltb 200 (contourArea c) && Qltb (contourArea c) 50000
  && match circularity (contourArea c) (arcLength c true) with
     | Ok circ => Qltb circ (1 # 2)
     | Raise _ => false
     end.

Definition spec_irregularity (c : contour) : detection :=
  {| type := "Surface Irregularity";
     confidence := py_min (8 # 10) (contourArea c / 5000);
     bbox := bbox_of_rect (boundingRect c) |}.

(** What the model path contributes to the result of [detect]: the list
    of [_detect_with_yolo] when the model is in use, nothing otherwise. *)
Definition model_path (self : t) (img : image) : list detection :=
  if use_yolo self then _detect_with_yolo self img else [].

End WithOpenCV.

(** Two boxes do not overlap by more than [thr]. *)
Definition apart (thr : Q) (a b : detection) : Prop :=
  ~ (thr < iou_bbox (bbox a) (bbox b))%Q.



(** A detection dictionary [draw_detections] can draw: four box
    coordinates and a confidence that is a number or is missing. *)
Definition drawable (d : det_dict) : Prop :=
  length (dd_bbox d) = 4%nat
  /\ match dd_confidence d with
     | Some (PyStr _) | Some PyNone => False
     | _ => True
     end.

End Props.

(* ===================================================================== *)
(** ** A canned OpenCV backend                                            *)
(* ===================================================================== *)

(** A backend that answers with fixed data, for running the pipeline on
    concrete inputs: [findContours] yields the given contours, the network
    yields the given output rows, filters and conversions leave the image
    as it is, and resampling yields a black image of the requested size. *)
Module Canned.

(** A contour by its measurements: area, bounding rectangle, perimeter. *)
Definition contour_t : Type := (Q * rect * Q)%type.

Definition black (img : image) (w h : Z) : image :=
  match img with
  | Gray _ => Gray (repeat (repeat 0 (Z.to_nat w)) (Z.to_nat h))
  | Color g =>
      Color (repeat (repeat (repeat 0 (grid_channels g)) (Z.to_nat w))
               (Z.to_nat h))
  end.

Lemma repeat_grid_shape {P : Type} (p : P) (w h : Z) :
  0 <= w -> 0 <= h ->
  grid_has_shape h w (repeat (repeat p (Z.to_nat w)) (Z.to_nat h)).
Proof.
  intros Hw Hh. split.
  - rewrite repeat_length. lia.
  - apply Forall_forall. intros r Hr.
    apply repeat_spec in Hr. subst r. rewrite repeat_length. lia.
Qed.

Lemma black_shape (img : image) (w h : Z) :
  0 < w -> 0 < h -> has_shape h w (black img w h).
Proof.
  intros Hw Hh. destruct img; simpl; apply repeat_grid_shape; lia.
Qed.

Definition backend (contours : list contour_t)
  (outputs : list (list (list Q))) : OpenCV :=
  {| imread := fun _ => None;
     cvtColor := fun img _ => img;
     resize_INTER_AREA := black;
     resize_INTER_AREA_shape := black_shape;
     GaussianBlur := fun img _ _ => Ok img;
     medianBlur := fun img _ => Ok img;
     bilateralFilter := fun img _ _ _ => Ok img;
     Canny := fun img _ _ => Ok img;
     dilate := fun img _ _ => Ok img;
     morphologyEx_CLOSE := fun img _ _ => Ok img;
     adaptiveThreshold_GAUSSIAN_BINARY_INV := fun img _ _ _ => Ok img;
     contour := contour_t;
     findContours_EXTERNAL_SIMPLE := fun _ => Ok contours;
     contourArea := fun c => fst (fst c);
     boundingRect := fun c => snd (fst c);
     arcLength := fun c _ => snd c;
     net := unit;
     blob := unit;
     readNet := fun _ _ => Ok tt;
     blobFromImage := fun _ _ _ _ _ => tt;
     net_forward := fun _ _ => Ok outputs;
     rectangle := fun img _ _ _ _ => img;
     getTextSize := fun _ _ _ => (80, 12);
     putText := fun img _ _ _ _ _ => img |}.

(** A 2 x 2 colour image and a 640 x 640 gray image. *)
Definition tiny : image :=
  Color [ [ [10; 20; 30]; [40; 50; 60] ];
          [ [0; 128; 255]; [7; 8; 9] ] ].

Definition gray640 : image := Gray (repeat (repeat 128 640%nat) 640%nat).

(** A file system with no model files. *)
Definition no_files : filesystem :=
  {| path_exists := fun _ => false;
     readlines := fun _ => Raise ValueError |}.

(** A file system with the topology and weights files and no class list. *)
Definition model_files : filesystem :=
  {| path_exists := fun p =>
       String.eqb p "models/yolov4-tiny.cfg"
       || String.eqb p "models/yolov4-tiny.weights";
     readlines := fun _ => Raise ValueError |}.

(** [format(q, '.2f')] for an exact rational: nearest hundredth, ties to
    even. *)
Definition digits (n : Z) : string :=
  NilZero.string_of_uint (N.to_uint (Z.to_N n)).

Definition round_half_even (q : Q) : Z :=
  let f := Qfloor q in
  match ((q - inject_Z f) ?= 1 # 2)%Q with
  | Lt => f
  | Gt => f + 1
  | Eq => if Z.even f then f else f + 1
  end.

Definition format_2f (q : Q) : string :=
  let n := round_half_even (q * 100) in
  let a := Z.abs n in
  let frac := a mod 100 in
  let sign := if n <? 0 then "-" else "" in
  let pad := if frac <? 10 then "0" else "" in
  (sign ++ digits (a / 100) ++ "." ++ pad ++ digits frac)%string.

(** A source image one pixel wide and 1000 pixels high. *)
Definition thin_image : image := Color (repeat [[128; 128; 128]] 1000).

(** Three contours: a long thin one, a square one, a small thin one. *)
Definition sample_contours : list contour_t :=
  [ (500%Q, (10, 10, 100, 8), 216%Q);
    (300%Q, (0, 0, 20, 20), 60%Q);
    (50%Q, (0, 0, 30, 2), 64%Q) ].

(** Network rows: centre x, centre y, width, height, objectness, then one
    score per class. *)
Definition sample_outputs : list (list (list Q)) :=
  [ [ [1 # 2; 1 # 2; 1 # 4; 1 # 4; 1; 9 # 10; 1 # 10];
      [33 # 64; 1 # 2; 1 # 4; 1 # 4; 1; 1 # 10; 8 # 10] ];
    [ [1 # 8; 1 # 8; 1 # 8; 1 # 8; 1; 7 # 10; 0];
      [3 # 4; 3 # 4; 1 # 8; 1 # 8; 1; 2 # 10; 3 # 10] ] ]%Q.


Definition rgb640 : image :=
  Color (repeat (repeat [128; 128; 128] 640%nat) 640%nat).

Definition sample_backend : OpenCV :=
  backend sample_contours sample_outputs.





End Canned.

(* ===================================================================== *)
(** ** Python strings and dictionaries                                    *)
(* ===================================================================== *)

(** Strings are byte strings; the operations below are the ASCII cases of
    the Python ones. *)

(** [c in s] for a single character. *)
Fixpoint contains_char (c : ascii) (s : string) : bool :=
  match s with
  | EmptyString => false
  | String a rest => Ascii.eqb a c || contains_char c rest
  end.

(** [s.lower()] *)
Definition lower_char (c : ascii) : ascii :=
  let n := nat_of_ascii c in
  if (Nat.leb 65 n && Nat.leb n 90)%bool then ascii_of_nat (n + 32) else c.

Fixpoint lower (s : string) : string :=
  match s with
  | EmptyString => EmptyString
  | String c rest => String (lower_char c) (lower rest)
  end.

(** [s.rsplit(sep, 1)]: the text before and after the last [sep], or the
    string alone when [sep] does not occur. *)
Fixpoint rsplit_last (sep : ascii) (s : string) : option (string * string) :=
  match s with
  | EmptyString => None
  | String c rest =>
      match rsplit_last sep rest with
      | Some (before, after) => Some (String c before, after)
      | None => if Ascii.eqb c sep then Some (EmptyString, rest) else None
      end
  end.

Definition rsplit1 (sep : ascii) (s : string) : list string :=
  match rsplit_last sep s with
  | Some (before, after) => [before; after]
  | None => [s]
  end.

(** [s.startswith(p)] and [s.endswith(p)] *)
Fixpoint startswith (s p : string) : bool :=
  match p, s with
  | EmptyString, _ => true
  | String a p', String b s' => Ascii.eqb a b && startswith s' p'
  | String _ _, EmptyString => false
  end.

Fixpoint endswith (s p : string) : bool :=
  match s with
  | EmptyString => String.eqb p EmptyString
  | String _ rest => String.eqb s p || endswith rest p
  end.

(** [s.replace(old, new)] for a non-empty [old]: occurrences are replaced
    from left to right and do not overlap.  [skip] counts the characters
    of a matched occurrence still to be passed over. *)
Fixpoint replace_from (old new : string) (skip : nat) (s : string) : string :=
  match s with
  | EmptyString => EmptyString
  | String c rest =>
      match skip with
      | S k => replace_from old new k rest
      | O =>
          if startswith s old
          then (new ++ replace_from old new (String.length old - 1) rest)%string
          else String c (replace_from old new 0 rest)
      end
  end.

Definition str_replace (s old new : string) : string :=
  replace_from old new 0 s.

(** [str(n)] for an integer. *)
Definition py_str (z : Z) : string := NilZero.string_of_int (Z.to_int z).

(** [os.path.join(a, b)] on POSIX. *)
Definition os_path_join (a b : string) : string :=
  if startswith b "/" then b
  else if (String.eqb a "" || endswith a "/")%bool then (a ++ b)%string
  else (a ++ "/" ++ b)%string.

(** A [dict] with string keys, in insertion order. *)
Module PyDict.
Section Dict.
Context {V : Type}.

Definition t : Type := list (string * V).

(** [m.get(k, default)] *)
Fixpoint get (m : t) (k : string) (default : V) : V :=
  match m with
  | [] => default
  | (k', v) :: rest => if String.eqb k k' then v else get rest k default
  end.

(** [k in m] *)
Fixpoint mem (m : t) (k : string) : bool :=
  match m with
  | [] => false
  | (k', _) :: rest => String.eqb k k' || mem rest k
  end.

(** [m[k] = v]: an existing key keeps its place, a new key goes last. *)
Fixpoint set (m : t) (k : string) (v : V) : t :=
  match m with
  | [] => [(k, v)]
  | (k', v') :: rest =>
      if String.eqb k k' then (k', v) :: rest
      else (k', v') :: set rest k v
  end.

End Dict.

Arguments t V : clear implicits.

End PyDict.

(* ===================================================================== *)
(** ** Stored results                                                     *)
(* ===================================================================== *)

(** A detection as read back from the results file: every key may be
    missing. *)
Record json_det : Type := {
  j_type : option string;
  j_confidence : option DefectDetector.pyval;
  j_bbox : option (list Z)
}.

(** The results record [upload] writes and the other routes read. *)
Record results_data : Type := {
  original_filename : option string;
  processed_filename : option string;
  detections : option (list json_det);
  timestamp : option string;
  defect_count : option Z
}.

(** A detection of the detector, as it is stored. *)
Definition to_json (d : detection) : json_det :=
  let '(x1, y1, x2, y2) := bbox d in
  {| j_type := Some (type d);
     j_confidence := Some (DefectDetector.PyFloat (confidence d));
     j_bbox := Some [x1; y1; x2; y2] |}.

(** [det.get('type', 'Unknown')] *)
Definition det_type (det : json_det) : string :=
  match j_type det with
  | Some t => t
  | None => "Unknown"
  end.

(** [det.get('bbox', [0, 0, 0, 0])] *)
Definition det_bbox (det : json_det) : list Z :=
  match j_bbox det with
  | Some b => b
  | None => [0; 0; 0; 0]
  end.

(** [det.get('confidence', 0)] *)
Definition det_confidence (det : json_det) : DefectDetector.pyval :=
  match j_confidence det with
  | Some v => v
  | None => DefectDetector.PyInt 0
  end.

(** [results_data.get('detections', [])] *)
Definition get_detections (r : results_data) : list json_det :=
  match detections r with
  | Some l => l
  | None => []
  end.

(** The loop
    [defect_types[defect_type] = defect_types.get(defect_type, 0) + 1]
    of the results page and of the report. *)
Fixpoint count_types (dets : list json_det) (defect_types : PyDict.t Z)
  : PyDict.t Z :=
  match dets with
  | [] => defect_types
  | det :: rest =>
      let defect_type := det_type det in
      count_types rest
        (PyDict.set defect_types defect_type
           (PyDict.get defect_types defect_type 0 + 1))
  end.

(* ===================================================================== *)
(** ** [app.py]                                                           *)
(* ===================================================================== *)

Module App.

Definition ALLOWED_EXTENSIONS : list string :=
  ["png"; "jpg"; "jpeg"; "gif"; "bmp"].

(** [allowed_file(filename)] *)
Definition allowed_file (filename : string) : result bool :=
  if contains_char "." filename then
    ext <- index (rsplit1 "." filename) 1 ;;
    Ok (existsb (String.eqb (lower ext)) ALLOWED_EXTENSIONS)
  else Ok false.

(** The filter of [dashboard()] on the names in the processed folder:
    [f.endswith(('.png', '.jpg', '.jpeg'))]. *)
Definition dashboard_lists (f : string) : bool :=
  endswith f ".png" || endswith f ".jpg" || endswith f ".jpeg".

(** The names [upload] derives from the time stamp and the secured
    file name: the stored name, the name of the annotated image and the
    path of the results file. *)
Definition upload_filename (timestamp secure_name : string) : string :=
  (timestamp ++ "_" ++ secure_name)%string.

Definition output_filename (filename : string) : string :=
  ("processed_" ++ filename)%string.

Definition results_file_written (filename : string) : string :=
  os_path_join "static/processed" ("results_" ++ filename ++ ".json")%string.

(** The results path the routes [results], [generate_report], [export_csv]
    and [export_excel] compute from the name of the annotated image. *)
Definition results_file_read (filename : string) : string :=
  os_path_join "static/processed"
    ("results_" ++ str_replace filename "processed_" "" ++ ".json")%string.

(** The record [upload] stores for the detections of an image. *)
Definition upload_record (filename timestamp : string)
  (detection_results : list detection) : results_data :=
  {| original_filename := Some filename;
     processed_filename := Some (output_filename filename);
     detections := Some (map to_json detection_results);
     timestamp := Some timestamp;
     defect_count := Some (Z.of_nat (length detection_results)) |}.

(** The type breakdown of the route [results]. *)
Definition results_defect_types (r : results_data) : PyDict.t Z :=
  count_types (get_detections r) [].

(** *** CSV export *)

Inductive cell : Type :=
| CellInt (z : Z)
| CellStr (s : string).

Definition csv_header : list cell :=
  [ CellStr "Defect ID"; CellStr "Type"; CellStr "Confidence";
    CellStr "X1"; CellStr "Y1"; CellStr "X2"; CellStr "Y2";
    CellStr "Area (px²)" ].

Section CsvExport.
(** [format(x, '.2f')] on a float. *)
Variable format_2f : Q -> string.

(** [bbox[i] if len(bbox) > i else 0] *)
Definition coordinate (bbox : list Z) (i : nat) : result Z :=
  if Nat.ltb i (length bbox) then index bbox i else Ok 0.

(** The row of one detection in [export_csv]. *)
Definition csv_row (idx : Z) (det : json_det) : result (list cell) :=
  let bbox := det_bbox det in
  area <-
    (if Nat.eqb (length bbox) 4 then
       b2 <- index bbox 2 ;;
       b0 <- index bbox 0 ;;
       b3 <- index bbox 3 ;;
       b1 <- index bbox 1 ;;
       Ok ((b2 - b0) * (b3 - b1))
     else Ok 0) ;;
  text <- DefectDetector.format_confidence format_2f (det_confidence det) ;;
  x1 <- coordinate bbox 0 ;;
  y1 <- coordinate bbox 1 ;;
  x2 <- coordinate bbox 2 ;;
  y2 <- coordinate bbox 3 ;;
  Ok [ CellInt idx; CellStr (det_type det); CellStr text;
       CellInt x1; CellInt y1; CellInt x2; CellInt y2; CellInt area ].

(** [for idx, det in enumerate(detections, 1): writer.writerow(...)] *)
Fixpoint csv_rows (idx : Z) (dets : list json_det)
  : result (list (list cell)) :=
  match dets with
  | [] => Ok []
  | det :: rest =>
      row <- csv_row idx det ;;
      rows <- csv_rows (idx + 1) rest ;;
      Ok (row :: rows)
  end.

(** The rows [export_csv] writes, header first. *)
Definition export_csv_rows (r : results_data) : result (list (list cell)) :=
  rows <- csv_rows 1 (get_detections r) ;;
  Ok (csv_header :: rows).

End CsvExport.

(** *** Processing an upload *)

Section Upload.
Context {cv : OpenCV}.
(** [format(x, '.2f')] on a float. *)
Variable format_2f : Q -> string.


End Upload.

(** *** Accounts *)

Section Accounts.
(** [generate_password_hash(password, method='pbkdf2:sha256')] draws a
    random salt: the salt is an argument here. *)
Variable generate_password_hash : string -> string -> string.
Variable check_password_hash : string -> option string -> result bool.

(** [USERS] as the module creates it. *)
Definition initial_users (salt_admin salt_user : string) : PyDict.t string :=
  [ ("admin", generate_password_hash "admin123" salt_admin);
    ("user", generate_password_hash "user123" salt_user) ].

(** A form field is falsy when it is missing or empty. *)
Definition blank (field : option string) : bool :=
  match field with
  | None => true
  | Some s => String.eqb s ""
  end.

(** [register()]: the new user table and the message flashed. *)
Definition register (USERS : PyDict.t string) (salt : string)
  (username password confirm_password : option string)
  : PyDict.t string * (string * string) :=
  match username, password, confirm_password with
  | Some u, Some p, Some c =>
      if blank username || blank password || blank confirm_password
      then (USERS, ("All fields are required", "error"))
      else if negb (String.eqb p c)
      then (USERS, ("Passwords do not match", "error"))
      else if PyDict.mem USERS u
      then (USERS, ("Username already exists", "error"))
      else (PyDict.set USERS u (generate_password_hash p salt),
            ("Registration successful! Please log in.", "success"))
  | _, _, _ => (USERS, ("All fields are required", "error"))
  end.

(** The [POST] branch of [login()]: the session's user and the message
    flashed. *)
Definition login_post (USERS : PyDict.t string) (session : option string)
  (username password : option string)
  : result (option string * (string * string)) :=
  match username with
  | Some u =>
      if PyDict.mem USERS u then
        ok <- check_password_hash (PyDict.get USERS u "") password ;;
        if ok then Ok (Some u, ("Login successful!", "success"))
        else Ok (session, ("Invalid username or password", "error"))
      else Ok (session, ("Invalid username or password", "error"))
  | None => Ok (session, ("Invalid username or password", "error"))
  end.

End Accounts.

End App.

(* ===================================================================== *)
(** ** [report_generator.py]: class [ReportGenerator]                     *)
(* ===================================================================== *)

Module ReportGenerator.

Record t : Type := { report_dir : string }.

(** [__init__] *)
Definition init : t := {| report_dir := "reports" |}.

(** [reportlab.lib.units.inch], in points. *)
Definition inch : Q := 72.

(** The flowables the report is made of, with the data they show; table
    and paragraph styles are named, not spelled out. *)
Inductive flowable : Type :=
| Paragraph (text style : string)
| Spacer (width height : Q)
| Table (data : list (list string)) (colWidths : list Q)
| Image (path : string) (width height : Q).

Section Generate.
(** [format(x, '.2f')] on a float. *)
Variable format_2f : Q -> string.
(** Whether [Image(path, ...)] can be constructed, and [doc.build]. *)
Variable image_loads : string -> result unit.
Variable doc_build : string -> list flowable -> result unit.

(** The rows of the type table, one per entry of the breakdown. *)
Definition type_rows (defect_types : PyDict.t Z) : list (list string) :=
  map (fun entry => [fst entry; py_str (snd entry)]) defect_types.

(** One row of the table of detections. *)
Definition details_row (idx : Z) (det : json_det) : result (list string) :=
  let bbox := det_bbox det in
  b0 <- index bbox 0 ;;
  b1 <- index bbox 1 ;;
  b2 <- index bbox 2 ;;
  b3 <- index bbox 3 ;;
  let bbox_str :=
    ("(" ++ py_str b0 ++ ", " ++ py_str b1 ++ ", " ++ py_str b2 ++ ", "
     ++ py_str b3 ++ ")")%string in
  text <- DefectDetector.format_confidence format_2f (det_confidence det) ;;
  Ok [py_str idx; det_type det; text; bbox_str].

(** [for idx, det in enumerate(detections, 1): details_data.append(...)] *)
Fixpoint details_rows (idx : Z) (dets : list json_det)
  : result (list (list string)) :=
  match dets with
  | [] => Ok []
  | det :: rest =>
      row <- details_row idx det ;;
      rows <- details_rows (idx + 1) rest ;;
      Ok (row :: rows)
  end.

(** The story [generate] hands to [doc.build]. *)
Definition build_story (now_text : string) (path_exists : string -> bool)
  (r : results_data) (image_path : string) : result (list flowable) :=
  let story :=
    [ Paragraph "Defect Detection Report" "CustomTitle";
      Spacer 1 ((2 # 10) * inch)%Q ] in
  let metadata :=
    [ ["Report Generated:"; now_text];
      ["Original Image:";
       match original_filename r with Some f => f | None => "N/A" end];
      ["Processed Image:";
       match processed_filename r with Some f => f | None => "N/A" end] ] in
  let story :=
    story ++ [ Table metadata [2 * inch; 4 * inch]%Q;
               Spacer 1 ((3 # 10) * inch)%Q ] in
  let count := match defect_count r with Some n => n | None => 0 end in
  let summary_text :=
    ("Total defects detected: <b>" ++ py_str count ++ "</b>")%string in
  let story :=
    story ++ [ Paragraph "Summary" "CustomHeading";
               Paragraph summary_text "Normal";
               Spacer 1 ((2 # 10) * inch)%Q ] in
  let dets := get_detections r in
  let story :=
    match dets with
    | [] => story
    | _ :: _ =>
        let defect_types := count_types dets [] in
        let type_data := ["Defect Type"; "Count"] :: type_rows defect_types in
        story ++ [ Paragraph "Defect Type Breakdown" "CustomHeading";
                   Table type_data [4 * inch; 2 * inch]%Q;
                   Spacer 1 ((3 # 10) * inch)%Q ]
    end in
  story <-
    match dets with
    | [] => Ok story
    | _ :: _ =>
        rows <- details_rows 1 dets ;;
        let details_data :=
          ["#"; "Type"; "Confidence"; "Location (x1, y1, x2, y2)"] :: rows in
        Ok (story ++
            [ Paragraph "Detailed Detections" "CustomHeading";
              Table details_data
                [(5 # 10) * inch; 2 * inch; (15 # 10) * inch;
                 (25 # 10) * inch]%Q;
              Spacer 1 ((3 # 10) * inch)%Q ])
    end ;;
  if path_exists image_path then
    let story := story ++ [Paragraph "Annotated Image" "CustomHeading"] in
    match image_loads image_path with
    | Ok _ => Ok (story ++ [Image image_path (5 * inch)%Q (5 * inch)%Q])
    | Raise _ => Ok story
    end
  else Ok story.

(** [generate(self, results_data, image_path)] *)
Definition generate (self : t) (now_stamp now_text : string)
  (path_exists : string -> bool) (r : results_data) (image_path : string)
  : result string :=
  let pdf_filename := ("defect_report_" ++ now_stamp ++ ".pdf")%string in
  let pdf_path := os_path_join (report_dir self) pdf_filename in
  story <- build_story now_text path_exists r image_path ;;
  _ <- doc_build pdf_path story ;;
  Ok pdf_path.

End Generate.

End ReportGenerator.
(* ===================================================================== *)
(** ** Further vocabulary                                                 *)
(* ===================================================================== *)

Module Pixels.




End Pixels.

Module Shapes.

(** The circularity as a number: [4 * pi * area / perimeter ** 2] for a
    positive perimeter, 0 otherwise. *)
Definition circularity_value (area perimeter : Q) : Q :=
  if Qltb 0 perimeter
  then (4 * np_pi * area / (perimeter * perimeter))%Q
  else 0%Q.

End Shapes.


Module Kept.

(** [a] is listed before [b]: its score is not lower. *)
Definition score_ge (a b : NMS.cand) : Prop :=
  (NMS.cand_score b <= NMS.cand_score a)%Q.

(** A detection made from a candidate. *)
Definition made_from (c : NMS.cand) (d : detection) : Prop :=
  confidence d = NMS.cand_score c /\ bbox d = bbox_of_rect (NMS.cand_box c).

(** The three lists of the candidates have one length. *)
Definition in_step (acc : DefectDetector.candidates) : Prop :=
  length (DefectDetector.confidences acc) = length (DefectDetector.boxes acc)
  /\ length (DefectDetector.class_ids acc)
     = length (DefectDetector.boxes acc).

End Kept.

Module Text.

(** [old] occurs in [s]. *)
Definition occurs (old s : string) : Prop :=
  exists pre post, s = (pre ++ old ++ post)%string.

End Text.

Module Counting.

(** The sum of the counts of a breakdown. *)
Definition total (m : PyDict.t Z) : Z := fold_right Z.add 0 (map snd m).

(** How many detections have type [t]. *)
Definition occurrences (t : string) (types : list string) : Z :=
  Z.of_nat (count_occ string_dec types t).

End Counting.

Module Stored.

(** The stored confidence can be formatted with ['.2f']: it is a number
    or it is missing. *)
Definition formattable (det : json_det) : Prop :=
  match det_confidence det with
  | DefectDetector.PyFloat _ | DefectDetector.PyInt _ => True
  | _ => False
  end.

(** The coordinate [i] of a stored box, 0 when the box is too short. *)
Definition coord (det : json_det) (i : nat) : Z := nth i (det_bbox det) 0.

(** The area column of the exports. *)
Definition export_area (det : json_det) : Z :=
  if Nat.eqb (length (det_bbox det)) 4
  then (coord det 2 - coord det 0) * (coord det 3 - coord det 1)
  else 0.

End Stored.
(* ===================================================================== *)
(** ** More sample data                                                   *)
(* ===================================================================== *)

Module Samples.


(** Network output whose second row has no class scores. *)
Definition truncated_outputs : list (list (list Q)) :=
  [ [ [1 # 2; 1 # 2; 1 # 4; 1 # 4; 1; 9 # 10];
      [1 # 8; 1 # 8; 1 # 8; 1 # 8; 1] ] ]%Q.

Definition truncated_backend : OpenCV :=
  Canned.backend Canned.sample_contours truncated_outputs.

(** The canned backend with an edge detector that always raises. *)
Definition canny_fails : OpenCV :=
  let b := Canned.sample_backend in
  {| imread := @imread b;
     cvtColor := @cvtColor b;
     resize_INTER_AREA := @resize_INTER_AREA b;
     resize_INTER_AREA_shape := @resize_INTER_AREA_shape b;
     GaussianBlur := @GaussianBlur b;
     medianBlur := @medianBlur b;
     bilateralFilter := @bilateralFilter b;
     Canny := fun _ _ _ => Raise cv2_error;
     dilate := @dilate b;
     morphologyEx_CLOSE := @morphologyEx_CLOSE b;
     adaptiveThreshold_GAUSSIAN_BINARY_INV :=
       @adaptiveThreshold_GAUSSIAN_BINARY_INV b;
     contour := @contour b;
     findContours_EXTERNAL_SIMPLE := @findContours_EXTERNAL_SIMPLE b;
     contourArea := @contourArea b;
     boundingRect := @boundingRect b;
     arcLength := @arcLength b;
     net := @net b;
     blob := @blob b;
     readNet := @readNet b;
     blobFromImage := @blobFromImage b;
     net_forward := @net_forward b;
     rectangle := @rectangle b;
     getTextSize := @getTextSize b;
     putText := @putText b |}.

(** A stored detection whose box lost a coordinate. *)
Definition short_stored : json_det :=
  {| j_type := Some "Crack";
     j_confidence := Some (DefectDetector.PyFloat (1 # 2));
     j_bbox := Some [10; 10; 110] |}.

(** A record whose only detection is [short_stored]. *)
Definition short_record : results_data :=
  {| original_filename := Some "part.png";
     processed_filename := Some "processed_part.png";
     detections := Some [short_stored];
     timestamp := Some "20240101_120000";
     defect_count := Some 1 |}.

(** A password scheme that stores the password itself. *)
Definition plain_hash (password salt : string) : string := password.

Definition plain_check (pwhash : string) (password : option string)
  : result bool :=
  match password with
  | Some p => Ok (String.eqb pwhash p)
  | None => Raise TypeError
  end.

End Samples.

(* ===================================================================== *)
(** ** Basic facts                                                        *)
(* ===================================================================== *)

Lemma Qltb_true (a b : Q) : Qltb a b = true <-> (a < b)%Q.
Proof.
  unfold Qltb. destruct (Qlt_le_dec a b) as [H | H]; split; intros H'.
  - exact H.
  - reflexivity.
  - discriminate.
  - exfalso. exact (Qle_not_lt _ _ H H').
Qed.

Lemma Qltb_false (a b : Q) : Qltb a b = false <-> (b <= a)%Q.
Proof.
  unfold Qltb. destruct (Qlt_le_dec a b) as [H | H]; split; intros H'.
  - discriminate.
  - exfalso. exact (Qle_not_lt _ _ H' H).
  - exact H.
  - reflexivity.
Qed.

(* ===================================================================== *)
(** ** Properties of [ImageProcessor]                                     *)
(* ===================================================================== *)

Module ImageProcessorSpec.
Import ImageProcessor Canned.

(** *** remove_noise *)

(** C10.  For every image and every method string other than
    ['gaussian'], ['median'] and ['bilateral'], [remove_noise] returns the
    input image itself: no filter is applied and nothing is raised. *)
Theorem remove_noise_unknown_method_identity
  (cv : OpenCV) (img : image) (method : string) :
  method <> "gaussian" -> method <> "median" -> method <> "bilateral" ->
  remove_noise img method = Ok img.
Proof.
  intros Hg Hm Hb. unfold remove_noise.
  apply String.eqb_neq in Hg, Hm, Hb.
  rewrite Hg, Hm, Hb. reflexivity.
Qed.

Lemma remove_noise_unknown_method_identity_witness :
  remove_noise (cv := backend [] []) tiny "sharpen"
  = Ok tiny.
Proof.
  apply (remove_noise_unknown_method_identity
           (backend [] []) tiny "sharpen");
    intros H; discriminate H.
Defined.

(** *** adjust_brightness *)

Lemma py_int_inject (q : Q) (v : Z) : (q == inject_Z v)%Q -> py_int q = v.
Proof.
  unfold Qeq, py_int. simpl. intros H.
  rewrite Z.mul_1_r in H. rewrite H.
  apply Z.quot_mul. discriminate.
Qed.

Lemma np_clip_in_range (q : Q) :
  (0 <= q)%Q -> (q <= 255)%Q -> np_clip q 0 255 = q.
Proof.
  intros H0 H255. unfold np_clip, py_min, py_max.
  destruct (Qlt_le_dec q 0) as [Hlt | _].
  - exfalso. exact (Qle_not_lt _ _ H0 Hlt).
  - destruct (Qlt_le_dec 255 q) as [Hlt | _]; [| reflexivity].
    exfalso. exact (Qle_not_lt _ _ H255 Hlt).
Qed.

Lemma adjust_sample_identity (v : Z) :
  is_uint8 v -> adjust_sample default_alpha default_beta v = v.
Proof.
  intros [Hlo Hhi]. unfold adjust_sample, astype_uint8.
  assert (Heq : (default_alpha * inject_Z v + default_beta == inject_Z v)%Q).
  { unfold default_alpha, default_beta. ring. }
  rewrite np_clip_in_range.
  - rewrite (py_int_inject _ v Heq). apply Z.mod_small. lia.
  - rewrite Heq. change 0%Q with (inject_Z 0). rewrite <- Zle_Qle. exact Hlo.
  - rewrite Heq. change 255%Q with (inject_Z 255). rewrite <- Zle_Qle.
    exact Hhi.
Qed.

Lemma map_id_on {A : Type} (f : A -> A) (p : A -> Prop) (l : list A) :
  (forall a, p a -> f a = a) -> Forall p l -> map f l = l.
Proof.
  intros Hf Hl. induction Hl as [| a l Ha _ IH]; simpl.
  - reflexivity.
  - rewrite (Hf a Ha), IH. reflexivity.
Qed.

(** C8.  For every image whose samples lie in [0, 255],
    [adjust_brightness] with the default parameters [alpha = 1.0] and
    [beta = 0] returns an image equal to its input. *)
Theorem adjust_brightness_default_identity (img : image) :
  samples_all is_uint8 img ->
  adjust_brightness img default_alpha default_beta = img.
Proof.
  pose proof adjust_sample_identity as Hs.
  destruct img as [g | g]; simpl; intros Hall;
    unfold adjust_brightness, map_samples, map_grid; f_equal.
  - apply (map_id_on _ (Forall is_uint8)); [| exact Hall].
    intros r Hr. apply (map_id_on _ is_uint8); assumption.
  - apply (map_id_on _ (Forall (Forall is_uint8))); [| exact Hall].
    intros r Hr. apply (map_id_on _ (Forall is_uint8)); [| exact Hr].
    intros px Hpx. apply (map_id_on _ is_uint8); assumption.
Qed.

Lemma adjust_brightness_default_identity_witness :
  adjust_brightness tiny default_alpha default_beta = tiny.
Proof.
  apply (adjust_brightness_default_identity tiny).
  unfold tiny, samples_all, grid_all, is_uint8.
  repeat (constructor; try lia).
Defined.

(** *** resize *)

Lemma shape2_of_has_shape (img : image) (h w : Z) :
  has_shape h w img -> 0 < h -> shape2 img = (h, w).
Proof.
  assert (Hg : forall (P : Type) (g : grid P),
             grid_has_shape h w g -> 0 < h ->
             (grid_height g, grid_width g) = (h, w)).
  { intros P g [Hlen Hrows] Hh. unfold grid_height, grid_width.
    destruct g as [| r g]; simpl in *; [lia |].
    inversion Hrows; subst. reflexivity. }
  destruct img as [g | g]; simpl; intros Hs Hh; apply Hg; assumption.
Qed.

Lemma pad_grid_shape {P : Type} (fill : P) (t b l r h w : Z) (g : grid P) :
  grid_has_shape h w g -> 0 < h ->
  0 <= t -> 0 <= b -> 0 <= l -> 0 <= r ->
  grid_has_shape (t + h + b) (l + w + r) (pad_grid fill t b l r g).
Proof.
  intros [Hlen Hrows] Hh Ht Hb Hl Hr.
  assert (Hw : Z.of_nat (length (hd [] g)) = w).
  { destruct g as [| r0 g]; simpl in *; [lia |].
    inversion Hrows; subst; reflexivity. }
  unfold pad_grid. split.
  - rewrite !length_app, !repeat_length, length_map. lia.
  - rewrite !Forall_app. repeat split.
    + apply Forall_forall. intros x Hx. apply repeat_spec in Hx. subst x.
      rewrite repeat_length. lia.
    + apply Forall_forall. intros x Hx. apply in_map_iff in Hx.
      destruct Hx as [r0 [<- Hin]].
      rewrite Forall_forall in Hrows. specialize (Hrows r0 Hin).
      unfold pad_row. rewrite !length_app, !repeat_length. lia.
    + apply Forall_forall. intros x Hx. apply repeat_spec in Hx. subst x.
      rewrite repeat_length. lia.
Qed.

Lemma copyMakeBorder_zero_shape (src : image) (t b l r h w : Z) :
  has_shape h w src -> 0 < h ->
  0 <= t -> 0 <= b -> 0 <= l -> 0 <= r ->
  exists out, copyMakeBorder_zero src t b l r = Ok out
              /\ has_shape (t + h + b) (l + w + r) out.
Proof.
  intros Hs Hh Ht Hb Hl Hr. unfold copyMakeBorder_zero.
  assert (Hneg : (t <? 0) || (b <? 0) || (l <? 0) || (r <? 0) = false).
  { rewrite !orb_false_iff, !Z.ltb_ge. lia. }
  rewrite Hneg.
  destruct src as [g | g]; simpl in Hs; eexists; split;
    try reflexivity; simpl; apply pad_grid_shape; assumption.
Qed.

(** [int(q)] of a non-negative float is its floor. *)
Lemma py_int_nonneg_le (q : Q) (n : Z) :
  (0 <= q)%Q -> (q <= inject_Z n)%Q -> 0 <= py_int q <= n.
Proof.
  unfold Qle, py_int. destruct q as [num den]. simpl.
  rewrite !Z.mul_1_r. intros H0 Hn.
  rewrite Z.quot_div_nonneg by lia. split.
  - apply Z.div_pos; lia.
  - apply Z.div_le_upper_bound; lia.
Qed.

Lemma py_min_le_l (a b : Q) : (py_min a b <= a)%Q.
Proof.
  unfold py_min. destruct (Qlt_le_dec b a) as [H | H].
  - apply Qlt_le_weak. exact H.
  - apply Qle_refl.
Qed.

Lemma py_min_le_r (a b : Q) : (py_min a b <= b)%Q.
Proof.
  unfold py_min. destruct (Qlt_le_dec b a) as [H | H].
  - apply Qle_refl.
  - exact H.
Qed.

Lemma py_min_nonneg (a b : Q) : (0 <= a)%Q -> (0 <= b)%Q -> (0 <= py_min a b)%Q.
Proof. intros Ha Hb. unfold py_min. destruct (Qlt_le_dec b a); assumption. Qed.

Lemma ratio_nonneg (a b : Z) : 0 < a -> 0 < b -> (0 <= inject_Z a / inject_Z b)%Q.
Proof.
  intros Ha Hb. apply Qle_shift_div_l.
  - change 0%Q with (inject_Z 0). rewrite <- Zlt_Qlt. exact Hb.
  - rewrite Qmult_0_l. change 0%Q with (inject_Z 0). rewrite <- Zle_Qle. lia.
Qed.

(** A side scaled by at most [target / side] stays within the target. *)
Lemma scaled_side_bounds (side target : Z) (s : Q) :
  0 < side -> (0 <= s)%Q -> (s <= inject_Z target / inject_Z side)%Q ->
  0 <= py_int (inject_Z side * s) <= target.
Proof.
  intros Hside Hs Hle.
  assert (Hpos : (0 < inject_Z side)%Q).
  { change 0%Q with (inject_Z 0). rewrite <- Zlt_Qlt. exact Hside. }
  apply py_int_nonneg_le.
  - apply Qmult_le_0_compat; [apply Qlt_le_weak; exact Hpos | exact Hs].
  - apply Qle_trans with (inject_Z side * (inject_Z target / inject_Z side))%Q.
    + apply Qmult_le_l; assumption.
    + assert (Heq : (inject_Z side * (inject_Z target / inject_Z side)
                     == inject_Z target)%Q).
      { field. intros H0. rewrite H0 in Hpos. discriminate Hpos. }
      rewrite Heq. apply Qle_refl.
Qed.

(** Whenever both scaled sides are at least one pixel, [resize] returns an
    image of exactly the target height and width. *)
Lemma resize_target_shape (cv : OpenCV) (self : t) (img : image)
  (h w tw th : Z) :
  has_shape h w img -> 0 < h -> 0 < w -> 0 < tw -> 0 < th ->
  let scale := py_min (inject_Z tw / inject_Z w) (inject_Z th / inject_Z h) in
  1 <= py_int (inject_Z w * scale) ->
  1 <= py_int (inject_Z h * scale) ->
  exists out, resize self img (Some (tw, th)) = Ok out
              /\ has_shape th tw out.
Proof.
  intros Hs Hh Hw Htw Hth scale Hnw Hnh.
  assert (Hscale0 : (0 <= scale)%Q).
  { apply py_min_nonneg; apply ratio_nonneg; assumption. }
  pose proof (scaled_side_bounds w tw scale Hw Hscale0 (py_min_le_l _ _))
    as [_ Hbw].
  pose proof (scaled_side_bounds h th scale Hh Hscale0 (py_min_le_r _ _))
    as [_ Hbh].
  unfold resize. rewrite (shape2_of_has_shape img h w Hs Hh).
  unfold py_truediv.
  replace (w =? 0) with false by (symmetry; apply Z.eqb_neq; lia).
  replace (h =? 0) with false by (symmetry; apply Z.eqb_neq; lia).
  cbn [bind]. fold scale.
  set (nw := py_int (inject_Z w * scale)) in *.
  set (nh := py_int (inject_Z h * scale)) in *.
  unfold cv2_resize.
  replace ((nw <=? 0) || (nh <=? 0)) with false
    by (symmetry; rewrite orb_false_iff, !Z.leb_gt; lia).
  cbn [bind].
  pose proof (resize_INTER_AREA_shape img nw nh ltac:(lia) ltac:(lia)) as Hr.
  destruct (negb (nw =? tw) || negb (nh =? th)) eqn:Hpad.
  - set (pt := (th - nh) / 2). set (pl := (tw - nw) / 2).
    assert (0 <= pt <= th - nh) by (subst pt; split;
      [apply Z.div_pos; lia | apply Z.div_le_upper_bound; lia]).
    assert (0 <= pl <= tw - nw) by (subst pl; split;
      [apply Z.div_pos; lia | apply Z.div_le_upper_bound; lia]).
    destruct (copyMakeBorder_zero_shape _ pt (th - nh - pt) pl (tw - nw - pl)
                nh nw Hr) as [out [Hout Hshape]]; try lia.
    exists out. split; [exact Hout |].
    replace th with (pt + nh + (th - nh - pt)) by lia.
    replace tw with (pl + nw + (tw - nw - pl)) by lia.
    exact Hshape.
  - rewrite orb_false_iff, !negb_false_iff, !Z.eqb_eq in Hpad.
    destruct Hpad as [-> ->].
    eexists. split; [reflexivity | exact Hr].
Qed.

(** The padding on opposing sides differs by at most one pixel, and the
    extra pixel is on the trailing (bottom, right) side. *)
Lemma letterbox_padding_split (total : Z) :
  0 <= total ->
  let leading := total / 2 in
  let trailing := total - leading in
  leading + trailing = total /\ leading <= trailing <= leading + 1.
Proof.
  intros Ht leading trailing. subst leading trailing.
  pose proof (Z.div_mod total 2 ltac:(lia)).
  pose proof (Z.mod_pos_bound total 2 ltac:(lia)). lia.
Qed.

(** A 2 x 4 image is scaled by 160 to 640 x 320 and padded with 160 rows
    above and 160 rows below. *)
Example resize_wide_image (cv : OpenCV) :
  exists out,
    resize init (Color [ [ [1; 2; 3]; [4; 5; 6]; [7; 8; 9]; [1; 1; 1] ];
                         [ [0; 0; 0]; [9; 9; 9]; [5; 5; 5]; [2; 2; 2] ] ])
      None = Ok out
    /\ has_shape 640 640 out.
Proof.
  apply (resize_target_shape cv init _ 2 4 640 640); try lia.
  - split; [reflexivity | repeat constructor].
  - vm_compute. discriminate.
  - vm_compute. discriminate.
Qed.

(** C6.  [resize] on a 1 x 1000 image with the default 640 x 640 target:
    the scale is 0.64, the new width is [int(0.64) = 0], and [cv2.resize]
    rejects the empty size, so no image of the target size is produced. *)
Theorem resize_thin_image_raises (cv : OpenCV) :
  shape2 thin_image = (1000, 1)
  /\ resize init thin_image None = Raise cv2_error.
Proof. split; vm_compute; reflexivity. Qed.

End ImageProcessorSpec.

(* ===================================================================== *)
(** ** Properties of [DefectDetector]                                     *)
(* ===================================================================== *)

Module DefectDetectorSpec.
Import DefectDetector Props Canned.

(** *** The crack path *)

Section Classical.
Context {cv : OpenCV}.

Lemma crack_loop_spec (contours : list contour) (acc : list detection) :
  crack_loop contours acc
  = acc ++ map spec_crack (filter spec_is_crack contours).
Proof.
  revert acc. induction contours as [| c rest IH]; intros acc; simpl.
  - rewrite app_nil_r. reflexivity.
  - unfold spec_is_crack, crack_min_area.
    destruct (Qltb 100 (contourArea c)) eqn:Harea; simpl; [| apply IH].
    destruct (boundingRect c) as [[[x y] w] h] eqn:Hrect. simpl.
    unfold py_truediv.
    replace (Z.max (Z.min w h) 1 =? 0) with false
      by (symmetry; apply Z.eqb_neq; lia).
    destruct (Qltb 3 _) eqn:Hratio; simpl; [| apply IH].
    rewrite IH, <- app_assoc. unfold spec_crack at 2. rewrite Hrect.
    reflexivity.
Qed.

(** C3.  For the contours found by the crack path, a detection is emitted
    exactly for those with area above 100 and aspect ratio
    [max(w, h) / max(min(w, h), 1)] above 3, in contour order; each emitted
    detection has type "Crack", confidence [min(0.9, area / 1000)] and the
    box of the contour's bounding rectangle. *)
Theorem crack_path_emits_exactly (gray_image : image)
  (contours : list contour) :
  crack_contours gray_image = Ok contours ->
  _detect_cracks gray_image
  = map (fun c =>
           {| type := "Crack";
              confidence := py_min (9 # 10) (contourArea c / 1000);
              bbox := bbox_of_rect (boundingRect c) |})
        (filter (fun c =>
                   Qltb 100 (contourArea c)
                   && Qltb 3 (spec_aspect_ratio (boundingRect c)))
           contours).
Proof.
  intros Hc. unfold _detect_cracks. rewrite Hc. simpl.
  rewrite crack_loop_spec. reflexivity.
Qed.

(** *** The irregularity path *)

Lemma circularity_defined (area perimeter : Q) :
  exists c, circularity area perimeter = Ok c.
Proof.
  unfold circularity. destruct (Qltb 0 perimeter) eqn:Hp.
  - apply Qltb_true in Hp. unfold py_fdiv.
    destruct (Qeq_bool (perimeter * perimeter) 0) eqn:Hz.
    + exfalso. apply Qeq_bool_eq in Hz.
      pose proof (Qmult_lt_0_compat _ _ Hp Hp) as Hpos.
      rewrite Hz in Hpos. discriminate Hpos.
    + eexists. reflexivity.
  - exists 0%Q. reflexivity.
Qed.

Lemma circularity_no_perimeter (area perimeter : Q) :
  (perimeter <= 0)%Q -> circularity area perimeter = Ok 0%Q.
Proof.
  intros Hp. unfold circularity.
  apply Qltb_false in Hp. rewrite Hp. reflexivity.
Qed.

(** C9.  The circularity of the irregularity path is defined for every
    area and perimeter: no division by zero can occur, and for a zero
    perimeter the value is 0, which is below the 0.5 threshold. *)
Theorem circularity_total (area perimeter : Q) :
  exists c, circularity area perimeter = Ok c
            /\ ((perimeter == 0)%Q ->
                c = 0%Q /\ Qltb c (1 # 2) = true).
Proof.
  destruct (circularity_defined area perimeter) as [c Hc].
  exists c. split; [exact Hc |]. intros H0.
  rewrite circularity_no_perimeter in Hc.
  - injection Hc as <-. split; reflexivity.
  - rewrite H0. apply Qle_refl.
Qed.

Lemma circularity_total_witness :
  circularity 300 0 = Ok 0%Q /\ Qltb 0 (1 # 2) = true.
Proof.
  destruct (circularity_total 300 0) as [c [Hc Hz]].
  destruct (Hz (Qeq_refl 0)) as [-> Hlt].
  split; [exact Hc | exact Hlt].
Defined.

Lemma irregularity_loop_spec (contours : list contour)
  (acc : list detection) :
  irregularity_loop contours acc
  = acc ++ map spec_irregularity (filter spec_is_irregular contours).
Proof.
  revert acc. induction contours as [| c rest IH]; intros acc; simpl.
  - rewrite app_nil_r. reflexivity.
  - unfold spec_is_irregular, irregularity_min_area, irregularity_max_area.
    destruct (Qltb 200 (contourArea c) && Qltb (contourArea c) 50000)
      eqn:Harea; simpl; [| apply IH].
    destruct (boundingRect c) as [[[x y] w] h] eqn:Hrect. simpl.
    destruct (circularity_defined (contourArea c) (arcLength c true))
      as [circ Hcirc].
    rewrite Hcirc.
    destruct (Qltb circ (1 # 2)); simpl; [| apply IH].
    rewrite IH, <- app_assoc. unfold spec_irregularity at 2. rewrite Hrect.
    reflexivity.
Qed.

(** *** Aggregation *)

Lemma detect_unfold (self : t) (img : image) :
  detect self img
  = model_path self img
    ++ _detect_cracks (ImageProcessor.grayscale img)
    ++ _detect_surface_irregularities (ImageProcessor.grayscale img).
Proof.
  unfold detect, model_path, _detect_with_classical.
  destruct (use_yolo self); reflexivity.
Qed.

(** C5.  For every input image, [detect] returns the concatenation of the
    model-path list, the crack-path list and the irregularity-path list, in
    that order: every detection of every path is kept, none is merged,
    moved or filtered. *)
Theorem detect_is_concatenation (self : t) (img : image) :
  let gray := ImageProcessor.grayscale img in
  detect self img
  = model_path self img
    ++ _detect_cracks gray ++ _detect_surface_irregularities gray
  /\ length (detect self img)
     = (length (model_path self img)
        + length (_detect_cracks gray)
        + length (_detect_surface_irregularities gray))%nat.
Proof.
  intros gray. subst gray. rewrite detect_unfold. split.
  - reflexivity.
  - rewrite !length_app. lia.
Qed.

Lemma load_without_model_files (fs : filesystem) (self : t) :
  path_exists fs config_path && path_exists fs weights_path = false ->
  _load_yolo_model fs self = set_use_yolo false self.
Proof. intros H. unfold _load_yolo_model. rewrite H. reflexivity. Qed.

(** The first sample contour is reported by the crack path and by the
    irregularity path, with the same box: both entries stay in the
    result, after the two boxes of the model path. *)
Example detect_keeps_every_finding :
  map (fun d => (type d, bbox d))
    (detect (cv := sample_backend)
       (init (cv := sample_backend) model_files) rgb640)
  = [ ("Unknown", (240, 240, 400, 400));
      ("Unknown", (40, 40, 120, 120));
      ("Crack", (10, 10, 110, 18));
      ("Surface Irregularity", (10, 10, 110, 18)) ].
Proof. vm_compute. reflexivity. Qed.

(** C4.  When the topology file and the weights file are both absent, the
    detector is built with the model path switched off: that path adds no
    detection, nothing is raised, and [detect] returns exactly the
    detections of the classical paths. *)
Theorem detect_without_model_files (fs : filesystem) (img : image) :
  path_exists fs config_path = false ->
  path_exists fs weights_path = false ->
  let self := init fs in
  use_yolo self = false
  /\ model_path self img = []
  /\ detect self img = _detect_with_classical self img.
Proof.
  intros Hc Hw self. subst self. unfold init.
  rewrite load_without_model_files by (rewrite Hc; reflexivity).
  repeat split.
Qed.

End Classical.

Lemma crack_path_emits_exactly_witness :
  _detect_cracks (cv := backend sample_contours []) gray640
  = [ {| type := "Crack";
         confidence := py_min (9 # 10) (500 / 1000);
         bbox := (10, 10, 110, 18) |} ].
Proof.
  rewrite (crack_path_emits_exactly (cv := backend sample_contours [])
             gray640 sample_contours eq_refl).
  reflexivity.
Defined.

Lemma detect_without_model_files_witness :
  detect (init (cv := backend sample_contours []) no_files)
    tiny
  = _detect_with_classical
      (init (cv := backend sample_contours []) no_files)
      tiny.
Proof.
  apply (detect_without_model_files
           (cv := backend sample_contours [])
           no_files tiny eq_refl eq_refl).
Defined.

(** *** Non-Maximum Suppression *)

Lemma bbox_inter_area_sym (a b : bbox_t) :
  bbox_inter_area a b = bbox_inter_area b a.
Proof.
  destruct a as [[[ax1 ay1] ax2] ay2], b as [[[bx1 by1] bx2] by2].
  unfold bbox_inter_area.
  rewrite (Z.min_comm ax2 bx2), (Z.max_comm ax1 bx1),
    (Z.min_comm ay2 by2), (Z.max_comm ay1 by1).
  reflexivity.
Qed.

Lemma iou_bbox_sym (a b : bbox_t) : iou_bbox a b = iou_bbox b a.
Proof.
  unfold iou_bbox. rewrite (bbox_inter_area_sym a b).
  rewrite (Z.add_comm (bbox_area a) (bbox_area b)). reflexivity.
Qed.

Lemma greedy_In (thr : Q) (order : list NMS.cand) (c : NMS.cand) :
  In c (NMS.greedy thr order) -> In c order.
Proof.
  funelim (NMS.greedy thr order); simp greedy; simpl; try tauto.
  intros [-> | Hin]; [left; reflexivity | right].
  apply H in Hin. apply filter_In in Hin. apply Hin.
Qed.

(** Every candidate kept after another is compatible with it. *)
Lemma greedy_pairwise (thr : Q) (order : list NMS.cand) :
  ForallOrdPairs (fun a b => NMS.compatible thr a b = true)
    (NMS.greedy thr order).
Proof.
  funelim (NMS.greedy thr order); simp greedy; [constructor |].
  constructor; [| exact H].
  apply Forall_forall. intros d Hd.
  apply greedy_In in Hd. apply filter_In in Hd. apply Hd.
Qed.

Lemma insert_desc_In (c d : NMS.cand) (l : list NMS.cand) :
  In d (NMS.insert_desc c l) -> d = c \/ In d l.
Proof.
  induction l as [| e l IH]; simpl.
  - intros [<- | []]. left. reflexivity.
  - destruct (Qltb (NMS.cand_score c) (NMS.cand_score e)); simpl.
    + intros [<- | Hin]; [right; left; reflexivity |].
      destruct (IH Hin) as [-> | Hl]; [left | right; right]; auto.
    + intros [<- | Hin]; [left | right]; auto.
Qed.

Lemma sort_desc_In (d : NMS.cand) (l : list NMS.cand) :
  In d (NMS.sort_desc l) -> In d l.
Proof.
  induction l as [| c l IH]; simpl; [auto |].
  intros Hin. apply insert_desc_In in Hin.
  destruct Hin as [-> | Hin]; [left | right]; auto.
Qed.

(** A candidate carries the box and the score stored at its index. *)
Lemma cands_lookup (boxes : list rect) (confs : list Q) (k : nat)
  (c : NMS.cand) :
  In c (combine (combine (seq k (length boxes)) boxes) confs) ->
  (k <= NMS.cand_index c)%nat
  /\ nth_error boxes (NMS.cand_index c - k) = Some (NMS.cand_box c)
  /\ nth_error confs (NMS.cand_index c - k) = Some (NMS.cand_score c).
Proof.
  revert confs k. induction boxes as [| b boxes IH]; intros confs k; simpl.
  - intros [].
  - destruct confs as [| s confs]; simpl; [intros [] |].
    intros [<- | Hin].
    + unfold NMS.cand_index, NMS.cand_box, NMS.cand_score. simpl.
      rewrite Nat.sub_diag. auto.
    + destruct (IH confs (S k) Hin) as [Hk [Hb Hs]].
      replace (NMS.cand_index c - k)%nat
        with (S (NMS.cand_index c - S k)) by lia.
      simpl. repeat split; [lia | exact Hb | exact Hs].
Qed.

Lemma apart_sym (thr : Q) (a b : detection) : apart thr a b -> apart thr b a.
Proof. unfold apart. rewrite (iou_bbox_sym (bbox b) (bbox a)). auto. Qed.

Lemma ForallOrdPairs_nth {A : Type} (R : A -> A -> Prop) (l : list A) :
  ForallOrdPairs R l ->
  forall i j a b, (i < j)%nat ->
    nth_error l i = Some a -> nth_error l j = Some b -> R a b.
Proof.
  induction 1 as [| x l Hx _ IH]; intros i j a b Hij Hi Hj.
  - destruct i; discriminate Hi.
  - destruct j as [| j]; [lia |]. simpl in Hj.
    destruct i as [| i]; simpl in Hi.
    + injection Hi as <-. apply nth_error_In in Hj.
      rewrite Forall_forall in Hx. auto.
    + apply (IH i j); [lia | assumption | assumption].
Qed.

Section ModelPath.
Context {cv : OpenCV}.

(** What the emission loop appends for the kept candidates: boxes that are
    pairwise apart, each the box of a kept candidate with its score. *)
Lemma yolo_emit_spec (classes : list string) (cands : candidates) (thr : Q)
  (kept : list NMS.cand) :
  (forall c, In c kept ->
     nth_error (boxes cands) (NMS.cand_index c) = Some (NMS.cand_box c)
     /\ nth_error (confidences cands) (NMS.cand_index c)
        = Some (NMS.cand_score c)) ->
  ForallOrdPairs (fun a b => NMS.compatible thr a b = true) kept ->
  forall acc, exists out,
    yolo_emit classes cands (map NMS.cand_index kept) acc = acc ++ out
    /\ ForallOrdPairs (apart thr) out
    /\ Forall (fun d => exists c, In c kept
                         /\ bbox d = bbox_of_rect (NMS.cand_box c)
                         /\ confidence d = NMS.cand_score c) out.
Proof.
  induction kept as [| c0 kept IH]; intros Hlook Hpair acc.
  - exists []. simpl. rewrite app_nil_r.
    repeat split; constructor.
  - inversion Hpair as [| ? ? Hc0 Hrest]; subst.
    destruct (Hlook c0 (or_introl eq_refl)) as [Hbox Hconf].
    simpl. rewrite Hbox, Hconf.
    destruct (NMS.cand_box c0) as [[[x y] w] h] eqn:Hb0.
    destruct (nth_error (class_ids cands) (NMS.cand_index c0))
      as [class_id |].
    2: { exists []. rewrite app_nil_r. repeat split; constructor. }
    match goal with
    | |- context [yolo_emit _ _ _ (acc ++ [?d])] => set (d0 := d)
    end.
    destruct (IH (fun c Hc => Hlook c (or_intror Hc)) Hrest (acc ++ [d0]))
      as [out [Hout [Hfop Hall]]].
    exists (d0 :: out). rewrite Hout, <- app_assoc. split; [reflexivity |].
    split.
    + constructor; [| exact Hfop].
      rewrite Forall_forall in Hall, Hc0 |- *.
      intros d Hd. destruct (Hall d Hd) as [c [Hc [Hbb _]]].
      specialize (Hc0 c Hc). unfold NMS.compatible in Hc0.
      apply negb_true_iff, Qltb_false in Hc0.
      unfold apart. rewrite Hbb. subst d0. simpl.
      intros Hlt. apply (Qle_not_lt _ _ Hc0).
      unfold iou_rect. rewrite Hb0, iou_bbox_sym. exact Hlt.
    + constructor.
      * exists c0. subst d0. simpl. rewrite Hb0.
        repeat split. left. reflexivity.
      * eapply Forall_impl; [| exact Hall].
        intros d [c [Hc Hd]]. exists c. split; [right; exact Hc | exact Hd].
Qed.

(** The candidates [NMSBoxes] keeps, with what they carry. *)
Lemma NMSBoxes_kept (bs : list rect) (cs : list Q) (st thr : Q) :
  exists kept,
    NMS.NMSBoxes bs cs st thr = map NMS.cand_index kept
    /\ ForallOrdPairs (fun a b => NMS.compatible thr a b = true) kept
    /\ (forall c, In c kept ->
          nth_error bs (NMS.cand_index c) = Some (NMS.cand_box c)
          /\ nth_error cs (NMS.cand_index c) = Some (NMS.cand_score c)).
Proof.
  unfold NMS.NMSBoxes. eexists. split; [reflexivity |]. split.
  - apply greedy_pairwise.
  - intros c Hc. apply greedy_In, sort_desc_In, cands_lookup in Hc.
    rewrite Nat.sub_0_r in Hc. apply Hc.
Qed.

(** The detections of the model path, seen from the candidates. *)
Lemma detect_with_yolo_spec (self : t) (img : image) :
  ForallOrdPairs (apart nms_threshold) (_detect_with_yolo self img)
  /\ (_detect_with_yolo self img = []
      \/ exists cands outputs,
           yolo_outputs
             (snd (shape2 (cvtColor img COLOR_RGB2BGR)))
             (fst (shape2 (cvtColor img COLOR_RGB2BGR)))
             outputs no_candidates = Ok cands
           /\ Forall (fun d => In (confidence d) (confidences cands))
                (_detect_with_yolo self img)).
Proof.
  unfold _detect_with_yolo.
  destruct (yolo_net self) as [yolo |]; [| split; [constructor | auto]].
  destruct (shape2 (cvtColor img COLOR_RGB2BGR)) as [height width] eqn:Hsh.
  destruct (net_forward yolo _) as [outputs | e]; simpl;
    [| split; [constructor | auto]].
  destruct (yolo_outputs width height outputs no_candidates)
    as [cands | e] eqn:Hcands; [| split; [constructor | auto]].
  destruct (NMSBoxes_kept (boxes cands) (confidences cands)
              conf_threshold nms_threshold)
    as [kept [-> [Hpair Hlook]]].
  destruct (yolo_emit_spec (yolo_classes self) cands nms_threshold kept
              Hlook Hpair []) as [out [-> [Hfop Hall]]].
  simpl. split; [exact Hfop |]. right.
  exists cands, outputs. split; [exact Hcands |].
  eapply Forall_impl; [| exact Hall].
  intros d [c [Hc [_ Hconf]]]. rewrite Hconf.
  destruct (Hlook c Hc) as [_ Hn]. eapply nth_error_In. exact Hn.
Qed.

(** C7.  After Non-Maximum Suppression with IoU threshold 0.4, no two
    detections the model path emits in one invocation have an IoU above
    0.4, whatever their class labels. *)
Theorem model_path_pairwise_iou (self : t) (img : image) (i j : nat)
  (a b : detection) :
  i <> j ->
  nth_error (_detect_with_yolo self img) i = Some a ->
  nth_error (_detect_with_yolo self img) j = Some b ->
  ~ (4 # 10 < iou_bbox (bbox a) (bbox b))%Q.
Proof.
  intros Hij Ha Hb.
  destruct (detect_with_yolo_spec self img) as [Hfop _].
  destruct (Nat.lt_total i j) as [Hlt | [Heq | Hgt]]; [| contradiction |].
  - exact (ForallOrdPairs_nth _ _ Hfop i j a b Hlt Ha Hb).
  - apply apart_sym. exact (ForallOrdPairs_nth _ _ Hfop j i b a Hgt Hb Ha).
Qed.

(** *** Detection invariants *)










(** *** The annotator *)

Lemma draw_one_returns_iff (format_2f : Q -> string) (img : image)
  (d : det_dict) :
  (exists out, draw_one format_2f img d = Ok out) <-> drawable d.
Proof.
  unfold draw_one, drawable.
  destruct (dd_bbox d) as [| x1 [| y1 [| x2 [| y2 [| extra rest]]]]];
    simpl; try (split; [intros [out H]; discriminate H
                       | intros [H _]; discriminate H]).
  destruct (dd_confidence d) as [[q | z | str |] |]; simpl;
    try (split; [intros _; split; [reflexivity | exact I]
                | intros _; eexists; reflexivity]);
    (split; [intros [out H]; discriminate H | intros [_ []]]).
Qed.

Lemma draw_loop_returns_iff (format_2f : Q -> string)
  (dets : list det_dict) :
  forall img,
    (exists out, draw_loop format_2f img dets = Ok out)
    <-> Forall drawable dets.
Proof.
  induction dets as [| d dets IH]; intros img; simpl.
  - split; [constructor | eexists; reflexivity].
  - split.
    + intros [out Hout].
      destruct (draw_one format_2f img d) as [img1 |] eqn:H1;
        cbn [bind] in Hout; [| discriminate Hout].
      constructor.
      * apply (draw_one_returns_iff format_2f img d). eexists. exact H1.
      * apply (IH img1). exists out. exact Hout.
    + intros Hall. inversion Hall as [| ? ? Hd Hrest]; subst.
      apply (draw_one_returns_iff format_2f img d) in Hd.
      destruct Hd as [img1 ->]. cbn [bind]. apply IH. exact Hrest.
Qed.


(** The dictionaries the detector builds are drawable. *)
Lemma to_dict_drawable (d : detection) : drawable (to_dict d).
Proof.
  unfold to_dict, drawable. destruct (bbox d) as [[[x1 y1] x2] y2].
  simpl. split; [reflexivity | exact I].
Qed.

End ModelPath.

(** *** Concrete runs *)

Lemma model_path_pairwise_iou_witness :
  ~ (4 # 10 < iou_bbox (240, 240, 400, 400)%Z (40, 40, 120, 120)%Z)%Q.
Proof.
  apply (model_path_pairwise_iou (cv := sample_backend)
           (init (cv := sample_backend) model_files) rgb640
           0%nat 1%nat
           {| type := "Unknown"; confidence := 9 # 10;
              bbox := (240, 240, 400, 400) |}
           {| type := "Unknown"; confidence := 7 # 10;
              bbox := (40, 40, 120, 120) |}).
  - discriminate.
  - vm_compute. reflexivity.
  - vm_compute. reflexivity.
Defined.





End DefectDetectorSpec.
(* ===================================================================== *)
(** ** Further properties of [ImageProcessor]                             *)
(* ===================================================================== *)

Module ImageProcessorMore.
Import ImageProcessor Pixels Canned Samples.

(** *** adjust_brightness *)





(** *** resize *)










(** X3.  An image with no rows or no columns makes [resize] raise
    [ZeroDivisionError]: the scale is computed before any OpenCV call. *)
Theorem resize_empty_image (cv : OpenCV) (self : t) (img : image)
  (tsize : option (Z * Z)) :
  fst (shape2 img) = 0 \/ snd (shape2 img) = 0 ->
  resize self img tsize = Raise ZeroDivisionError.
Proof.
  intros Hz. unfold resize.
  destruct (shape2 img) as [height width]. simpl in Hz.
  destruct (match tsize with None => target_size self | Some ts => ts end)
    as [target_width target_height].
  unfold py_truediv.
  destruct (width =? 0) eqn:Hw; [reflexivity |].
  apply Z.eqb_neq in Hw.
  destruct Hz as [-> | ->]; [reflexivity | contradiction].
Qed.

Lemma resize_empty_image_witness :
  resize (cv := backend [] []) init (Color []) None
  = Raise ZeroDivisionError.
Proof.
  apply (resize_empty_image (backend [] []) init (Color []) None).
  left. reflexivity.
Defined.

(** *** The content of the letterbox *)







End ImageProcessorMore.

(* ===================================================================== *)
(** ** Further properties of [DefectDetector]                             *)
(* ===================================================================== *)

Module DefectDetectorMore.
Import DefectDetector Props Shapes Kept Canned Samples.

Section WithOpenCV.
Context {cv : OpenCV}.

(** *** Loading the model *)

(** X5.  The detector uses the model exactly when the topology and weights
    files exist, [readNet] succeeds and the class list is either absent or
    readable; and whenever the model is in use a network is loaded. *)
Theorem model_enabled_iff (fs : filesystem) :
  (use_yolo (init fs) = true
   <-> path_exists fs config_path = true
       /\ path_exists fs weights_path = true
       /\ (exists n, readNet weights_path config_path = Ok n)
       /\ (path_exists fs classes_path = false
           \/ exists lines, readlines fs classes_path = Ok lines))
  /\ (use_yolo (init fs) = true -> exists n, yolo_net (init fs) = Some n).
Proof.
  unfold init, _load_yolo_model.
  destruct (path_exists fs config_path) eqn:Hc;
    destruct (path_exists fs weights_path) eqn:Hw; simpl;
    try (split; [split; [discriminate | intros (? & ? & _); discriminate]
                | discriminate]).
  destruct (readNet weights_path config_path) as [n | e] eqn:Hnet; simpl.
  2: { split; [split; [discriminate |] | discriminate].
       intros (_ & _ & [n Hn] & _). discriminate Hn. }
  destruct (path_exists fs classes_path) eqn:Hcl; simpl.
  - destruct (readlines fs classes_path) as [lines | e] eqn:Hread; simpl.
    + split; [| intros _; exists n; reflexivity].
      split; [| reflexivity]. intros _. repeat split; eauto.
    + split; [split; [discriminate |] | discriminate].
      intros (_ & _ & _ & [Habs | [lines Hl]]); discriminate.
  - split; [| intros _; exists n; reflexivity].
    split; [| reflexivity]. intros _. repeat split; eauto.
Qed.

(** *** Failures inside the model path *)

Lemma yolo_row_short (width height : Z) (row : list Q) (acc : candidates) :
  (length row <= 5)%nat ->
  yolo_row width height row acc = Raise ValueError.
Proof.
  intros Hlen. unfold yolo_row.
  rewrite (skipn_all2 row Hlen). reflexivity.
Qed.

Lemma yolo_rows_short (width height : Z) (rows : list (list Q)) :
  Exists (fun row => (length row <= 5)%nat) rows ->
  forall acc, exists e, yolo_rows width height rows acc = Raise e.
Proof.
  induction 1 as [row rows Hrow | row rows _ IH]; intros acc;
    cbn [yolo_rows].
  - rewrite (yolo_row_short _ _ _ _ Hrow). eexists. reflexivity.
  - destruct (yolo_row width height row acc) as [acc1 | e]; cbn [bind].
    + apply IH.
    + eexists. reflexivity.
Qed.

Lemma yolo_outputs_short (width height : Z)
  (outputs : list (list (list Q))) :
  Exists (Exists (fun row => (length row <= 5)%nat)) outputs ->
  forall acc, exists e, yolo_outputs width height outputs acc = Raise e.
Proof.
  induction 1 as [output outputs Hout | output outputs _ IH]; intros acc;
    cbn [yolo_outputs].
  - destruct (yolo_rows_short width height output Hout acc) as [e ->].
    eexists. reflexivity.
  - destruct (yolo_rows width height output acc) as [acc1 | e]; cbn [bind].
    + apply IH.
    + eexists. reflexivity.
Qed.

(** X6.  When the forward pass raises, or any output row has no class
    scores (five entries or fewer), the model path returns no detection at
    all, also for the well-formed rows, and [detect] returns the classical
    detections alone. *)
Theorem model_path_failure_is_isolated (self : t) (img : image) (yolo : net) :
  yolo_net self = Some yolo ->
  let blob :=
    blobFromImage (cvtColor img COLOR_RGB2BGR) (1 / 255) (416, 416)
      true false in
  (exists e, net_forward yolo blob = Raise e)
  \/ (exists outputs,
        net_forward yolo blob = Ok outputs
        /\ Exists (Exists (fun row => (length row <= 5)%nat)) outputs) ->
  _detect_with_yolo self img = []
  /\ detect self img = _detect_with_classical self img.
Proof.
  intros Hnet blob Hfail.
  assert (Hyolo : _detect_with_yolo self img = []).
  { unfold _detect_with_yolo. rewrite Hnet.
    destruct (shape2 (cvtColor img COLOR_RGB2BGR)) as [height width].
    fold blob.
    destruct Hfail as [[e ->] | [outputs [-> Hshort]]]; [reflexivity |].
    cbn [bind].
    destruct (yolo_outputs_short width height outputs Hshort no_candidates)
      as [e ->].
    reflexivity. }
  split; [exact Hyolo |].
  unfold detect. rewrite Hyolo. destruct (use_yolo self); reflexivity.
Qed.

(** *** Labels of the model path *)

Lemma yolo_emit_types (classes : list string) (cands : candidates)
  (indices : list nat) :
  forall acc,
    Forall (fun d => In (type d) classes \/ type d = "Unknown") acc ->
    Forall (fun d => In (type d) classes \/ type d = "Unknown")
      (yolo_emit classes cands indices acc).
Proof.
  induction indices as [| i rest IH]; intros acc Hacc; cbn [yolo_emit].
  - exact Hacc.
  - destruct (nth_error (boxes cands) i) as [[[[x y] w] h] |]; [| exact Hacc].
    destruct (nth_error (class_ids cands) i) as [class_id |]; [| exact Hacc].
    destruct (nth_error (confidences cands) i) as [conf |]; [| exact Hacc].
    apply IH. apply Forall_app. split; [exact Hacc |].
    constructor; [| constructor]. simpl.
    destruct (Nat.ltb_spec class_id (length classes)) as [Hlt | Hge].
    + left. apply nth_In. exact Hlt.
    + right. reflexivity.
Qed.

(** X7.  The type of a model-path detection is one of the loaded class
    names or "Unknown"; with no class list loaded it is always
    "Unknown". *)
Theorem model_path_types (self : t) (img : image) (d : detection) :
  In d (_detect_with_yolo self img) ->
  (In (type d) (yolo_classes self) \/ type d = "Unknown")
  /\ (yolo_classes self = [] -> type d = "Unknown").
Proof.
  intros Hd.
  assert (Hty : In (type d) (yolo_classes self) \/ type d = "Unknown").
  { unfold _detect_with_yolo in Hd.
    destruct (yolo_net self) as [yolo |]; [| destruct Hd].
    destruct (shape2 (cvtColor img COLOR_RGB2BGR)) as [height width].
    destruct (bind _ _) as [cands | e]; [| destruct Hd].
    pose proof (yolo_emit_types (yolo_classes self) cands
                  (NMS.NMSBoxes (boxes cands) (confidences cands)
                     conf_threshold nms_threshold) [] (Forall_nil _)) as Hall.
    rewrite Forall_forall in Hall. exact (Hall d Hd). }
  split; [exact Hty |].
  intros Hnil. rewrite Hnil in Hty. destruct Hty as [[] | Hu]. exact Hu.
Qed.

(** *** The irregularity path *)

Lemma circularity_is_value (area perimeter : Q) :
  circularity area perimeter = Ok (circularity_value area perimeter).
Proof.
  unfold circularity, circularity_value.
  destruct (Qltb 0 perimeter) eqn:Hp; [| reflexivity].
  apply Qltb_true in Hp. unfold py_fdiv.
  destruct (Qeq_bool (perimeter * perimeter) 0) eqn:Hz; [| reflexivity].
  exfalso. apply Qeq_bool_eq in Hz.
  pose proof (Qmult_lt_0_compat _ _ Hp Hp) as Hpos.
  rewrite Hz in Hpos. discriminate Hpos.
Qed.

(** X8.  For the contours found by the irregularity path, a detection is
    emitted exactly for those with area strictly between 200 and 50000 and
    circularity [4 * pi * area / perimeter ** 2] (0 for a zero perimeter)
    below 0.5, in contour order; each has type "Surface Irregularity",
    confidence [min(0.8, area / 5000)] and the box of the contour's
    bounding rectangle. *)
Theorem irregularity_path_emits_exactly (gray_image : image)
  (contours : list contour) :
  irregularity_contours gray_image = Ok contours ->
  _detect_surface_irregularities gray_image
  = map (fun c =>
           {| type := "Surface Irregularity";
              confidence := py_min (8 # 10) (contourArea c / 5000);
              bbox := bbox_of_rect (boundingRect c) |})
        (filter (fun c =>
                   Qltb 200 (contourArea c) && Qltb (contourArea c) 50000
                   && Qltb (circularity_value (contourArea c)
                              (arcLength c true)) (1 # 2))
           contours).
Proof.
  intros Hc. unfold _detect_surface_irregularities. rewrite Hc. simpl.
  rewrite DefectDetectorSpec.irregularity_loop_spec. simpl.
  f_equal. apply filter_ext. intros c. unfold spec_is_irregular.
  rewrite circularity_is_value. reflexivity.
Qed.

(** *** Confidence of the classical paths *)

(** X9.  A crack detection has type "Crack" and a confidence above 0.1 and
    at most 0.9; an irregularity detection has type "Surface Irregularity"
    and a confidence above 0.04 and at most 0.8. *)
Theorem classical_confidence_ranges (gray : image) (d : detection) :
  (In d (_detect_cracks gray) ->
   type d = "Crack"
   /\ (1 # 10 < confidence d)%Q /\ (confidence d <= 9 # 10)%Q)
  /\ (In d (_detect_surface_irregularities gray) ->
      type d = "Surface Irregularity"
      /\ (1 # 25 < confidence d)%Q /\ (confidence d <= 8 # 10)%Q).
Proof.
  split; intros Hd.
  - unfold _detect_cracks in Hd.
    destruct (crack_contours gray) as [cs |]; simpl in Hd; [| destruct Hd].
    rewrite DefectDetectorSpec.crack_loop_spec in Hd. simpl in Hd.
    apply in_map_iff in Hd. destruct Hd as [c [<- Hc]].
    apply filter_In in Hc. destruct Hc as [_ Hcrack].
    unfold spec_is_crack in Hcrack. apply andb_true_iff in Hcrack.
    destruct Hcrack as [Harea _]. apply Qltb_true in Harea. simpl.
    split; [reflexivity |]. split.
    + unfold py_min. destruct (Qlt_le_dec _ _); [| reflexivity].
      apply Qlt_shift_div_l; [reflexivity |].
      eapply Qle_lt_trans; [| exact Harea]. unfold Qle. simpl. lia.
    + apply ImageProcessorSpec.py_min_le_l.
  - unfold _detect_surface_irregularities in Hd.
    destruct (irregularity_contours gray) as [cs |]; simpl in Hd;
      [| destruct Hd].
    rewrite DefectDetectorSpec.irregularity_loop_spec in Hd. simpl in Hd.
    apply in_map_iff in Hd. destruct Hd as [c [<- Hc]].
    apply filter_In in Hc. destruct Hc as [_ Hirr].
    unfold spec_is_irregular in Hirr. rewrite !andb_true_iff in Hirr.
    destruct Hirr as [[Harea _] _]. apply Qltb_true in Harea. simpl.
    split; [reflexivity |]. split.
    + unfold py_min. destruct (Qlt_le_dec _ _); [| reflexivity].
      apply Qlt_shift_div_l; [reflexivity |].
      eapply Qle_lt_trans; [| exact Harea]. unfold Qle. simpl. lia.
    + apply ImageProcessorSpec.py_min_le_l.
Qed.

(** *** Failures inside the classical paths *)

(** X10.  When a stage of the crack path raises, the crack path adds
    nothing and [detect] still returns the model-path and irregularity
    detections; likewise for a failure in the irregularity path. *)
Theorem classical_failure_is_isolated (self : t) (img : image) :
  let gray := ImageProcessor.grayscale img in
  ((exists e, crack_contours gray = Raise e) ->
   detect self img
   = model_path self img ++ _detect_surface_irregularities gray)
  /\ ((exists e, irregularity_contours gray = Raise e) ->
      detect self img = model_path self img ++ _detect_cracks gray).
Proof.
  intros gray. split; intros [e He];
    rewrite DefectDetectorSpec.detect_unfold; fold gray.
  - unfold _detect_cracks. rewrite He. reflexivity.
  - unfold _detect_surface_irregularities. rewrite He. simpl.
    rewrite app_nil_r. reflexivity.
Qed.

(** *** Drawing what was detected *)

(** X11.  [draw_detections] never raises on the detections [detect]
    returned for the same detector: every dictionary the detector builds
    has a four-element box and a numeric confidence. *)
Theorem draw_detections_accepts_detect (format_2f : Q -> string)
  (self : t) (img canvas : image) :
  exists out,
    draw_detections format_2f canvas (map to_dict (detect self img)) = Ok out.
Proof.
  unfold draw_detections.
  apply (DefectDetectorSpec.draw_loop_returns_iff format_2f).
  apply Forall_forall. intros d Hd. apply in_map_iff in Hd.
  destruct Hd as [d0 [<- _]]. apply DefectDetectorSpec.to_dict_drawable.
Qed.

(** *** Order and number of the model-path detections *)

Lemma insert_desc_sorted (c : NMS.cand) (l : list NMS.cand) :
  ForallOrdPairs score_ge l -> ForallOrdPairs score_ge (NMS.insert_desc c l).
Proof.
  induction 1 as [| d l Hd Hl IH]; simpl.
  - repeat constructor.
  - destruct (Qltb (NMS.cand_score c) (NMS.cand_score d)) eqn:Hlt.
    + apply Qltb_true in Hlt. constructor; [| exact IH].
      apply Forall_forall. intros e He.
      apply DefectDetectorSpec.insert_desc_In in He.
      destruct He as [-> | He].
      * apply Qlt_le_weak. exact Hlt.
      * rewrite Forall_forall in Hd. exact (Hd e He).
    + apply Qltb_false in Hlt. constructor.
      * constructor; [exact Hlt |].
        eapply Forall_impl; [| exact Hd].
        intros e He. unfold score_ge in *.
        exact (Qle_trans _ _ _ He Hlt).
      * constructor; assumption.
Qed.

Lemma sort_desc_sorted (l : list NMS.cand) :
  ForallOrdPairs score_ge (NMS.sort_desc l).
Proof.
  induction l as [| c l IH]; simpl; [constructor |].
  apply insert_desc_sorted. exact IH.
Qed.

Lemma filter_pairwise {A : Type} (R : A -> A -> Prop) (f : A -> bool)
  (l : list A) :
  ForallOrdPairs R l -> ForallOrdPairs R (filter f l).
Proof.
  induction 1 as [| a l Ha Hl IH]; simpl; [constructor |].
  destruct (f a); [| exact IH].
  constructor; [| exact IH].
  apply Forall_forall. intros b Hb. apply filter_In in Hb.
  rewrite Forall_forall in Ha. apply Ha, Hb.
Qed.

Lemma greedy_sorted (thr : Q) (order : list NMS.cand) :
  ForallOrdPairs score_ge order ->
  ForallOrdPairs score_ge (NMS.greedy thr order).
Proof.
  funelim (NMS.greedy thr order); try simp greedy; intros Hs;
    try solve [constructor].
  inversion Hs as [| ? ? Hc Hrest]; subst.
  constructor.
  - apply Forall_forall. intros d Hd.
    apply DefectDetectorSpec.greedy_In in Hd. apply filter_In in Hd.
    rewrite Forall_forall in Hc. apply Hc, Hd.
  - apply H. apply filter_pairwise. exact Hrest.
Qed.

Lemma pairwise_firstn {A : Type} (R : A -> A -> Prop) (k : nat)
  (l : list A) :
  ForallOrdPairs R l -> ForallOrdPairs R (firstn k l).
Proof.
  intros Hl. revert k. induction Hl as [| a l Ha _ IH]; intros k.
  - rewrite firstn_nil. constructor.
  - destruct k as [| k]; simpl; [constructor |].
    constructor; [| apply IH].
    apply Forall_forall. intros b Hb.
    rewrite Forall_forall in Ha. apply Ha.
    revert Hb. clear. revert k. induction l as [| x l IHl]; intros k Hb.
    + rewrite firstn_nil in Hb. destruct Hb.
    + destruct k as [| k]; simpl in Hb; [destruct Hb |].
      destruct Hb as [-> | Hb]; [left; reflexivity | right; eauto].
Qed.

Lemma pairwise_Forall2 {A B : Type} (R : A -> A -> Prop)
  (R' : B -> B -> Prop) (P : A -> B -> Prop) (l : list A) (l' : list B) :
  (forall a b a' b', R a b -> P a a' -> P b b' -> R' a' b') ->
  Forall2 P l l' -> ForallOrdPairs R l -> ForallOrdPairs R' l'.
Proof.
  intros Htrans H2. induction H2 as [| a a' l l' Haa H2 IH]; intros HR.
  - constructor.
  - inversion HR as [| ? ? Ha Hl]; subst. constructor; [| apply IH, Hl].
    clear IH HR Hl. induction H2 as [| b b' l l' Hbb H2 IH2].
    + constructor.
    + inversion Ha; subst. constructor; [| apply IH2; assumption].
      eapply Htrans; eassumption.
Qed.

(** The emission loop makes one detection per kept candidate, in order,
    and stops only at an index missing from one of the three lists. *)
Lemma yolo_emit_prefix (classes : list string) (cands : candidates)
  (kept : list NMS.cand) :
  (forall c, In c kept ->
     nth_error (boxes cands) (NMS.cand_index c) = Some (NMS.cand_box c)
     /\ nth_error (confidences cands) (NMS.cand_index c)
        = Some (NMS.cand_score c)) ->
  forall acc, exists k out,
    yolo_emit classes cands (map NMS.cand_index kept) acc = acc ++ out
    /\ Forall2 made_from (firstn k kept) out
    /\ ((forall c, In c kept ->
           nth_error (class_ids cands) (NMS.cand_index c) <> None) ->
        k = length kept).
Proof.
  induction kept as [| c0 kept IH]; intros Hlook acc.
  - exists 0%nat, []. simpl. rewrite app_nil_r. repeat split. constructor.
  - destruct (Hlook c0 (or_introl eq_refl)) as [Hbox Hconf].
    cbn [map yolo_emit]. rewrite Hbox, Hconf.
    destruct (NMS.cand_box c0) as [[[x y] w] h] eqn:Hb0.
    destruct (nth_error (class_ids cands) (NMS.cand_index c0))
      as [class_id |] eqn:Hid.
    2: { exists 0%nat, []. rewrite app_nil_r. repeat split; [constructor |].
         intros Hall. exfalso.
         exact (Hall c0 (or_introl eq_refl) Hid). }
    match goal with
    | |- context [yolo_emit _ _ _ (acc ++ [?d])] => set (d0 := d)
    end.
    destruct (IH (fun c Hc => Hlook c (or_intror Hc)) (acc ++ [d0]))
      as [k [out [Hout [H2 Hk]]]].
    exists (S k), (d0 :: out). rewrite Hout, <- app_assoc.
    split; [reflexivity |]. split.
    + simpl. constructor; [| exact H2].
      subst d0. unfold made_from. simpl. rewrite Hb0. split; reflexivity.
    + intros Hall. simpl. f_equal. apply Hk.
      intros c Hc. apply Hall. right. exact Hc.
Qed.

(** X12.  The detections of the model path are listed by non-increasing
    confidence: the order in which Non-Maximum Suppression keeps them. *)
Theorem model_path_sorted_by_confidence (self : t) (img : image)
  (i j : nat) (a b : detection) :
  (i < j)%nat ->
  nth_error (_detect_with_yolo self img) i = Some a ->
  nth_error (_detect_with_yolo self img) j = Some b ->
  (confidence b <= confidence a)%Q.
Proof.
  assert (Hfop : ForallOrdPairs
                   (fun a b => (confidence b <= confidence a)%Q)
                   (_detect_with_yolo self img)).
  { unfold _detect_with_yolo.
    destruct (yolo_net self) as [yolo |]; [| constructor].
    destruct (shape2 (cvtColor img COLOR_RGB2BGR)) as [height width].
    destruct (bind _ _) as [cands | e]; [| constructor].
    unfold NMS.NMSBoxes.
    set (all := combine (combine (seq 0 (length (boxes cands)))
                           (boxes cands)) (confidences cands)).
    set (kept := NMS.greedy nms_threshold (NMS.sort_desc all)).
    assert (Hlook : forall c, In c kept ->
      nth_error (boxes cands) (NMS.cand_index c) = Some (NMS.cand_box c)
      /\ nth_error (confidences cands) (NMS.cand_index c)
         = Some (NMS.cand_score c)).
    { intros c Hc. subst kept all.
      apply DefectDetectorSpec.greedy_In, DefectDetectorSpec.sort_desc_In,
        DefectDetectorSpec.cands_lookup in Hc.
      rewrite Nat.sub_0_r in Hc. apply Hc. }
    destruct (yolo_emit_prefix (yolo_classes self) cands kept Hlook [])
      as [k [out [-> [H2 _]]]].
    simpl.
    apply (pairwise_Forall2 score_ge _ made_from (firstn k kept) out);
      [| exact H2 |].
    - intros c c' d d' Hcc [Hd _] [Hd' _]. rewrite Hd, Hd'. exact Hcc.
    - apply pairwise_firstn. subst kept.
      apply greedy_sorted, sort_desc_sorted. }
  intros Hij Ha Hb.
  exact (DefectDetectorSpec.ForallOrdPairs_nth _ _ Hfop i j a b Hij Ha Hb).
Qed.

Lemma argmax_from_spec (l : list Q) :
  forall (pre : list Q) (best_i : nat) (best : Q),
    nth_error pre best_i = Some best ->
    (forall y, In y pre -> (y <= best)%Q) ->
    exists v,
      nth_error (pre ++ l) (argmax_from best_i best (length pre) l) = Some v
      /\ forall y, In y (pre ++ l) -> (y <= v)%Q.
Proof.
  induction l as [| x l IH]; intros pre best_i best Hbest Hmax; simpl.
  - exists best. rewrite app_nil_r. split; assumption.
  - destruct (Qltb best x) eqn:Hlt.
    + apply Qltb_true in Hlt.
      destruct (IH (pre ++ [x]) (length pre) x) as [v [Hv Hall]].
      * rewrite nth_error_app2, Nat.sub_diag by lia. reflexivity.
      * intros y Hy. apply in_app_or in Hy. destruct Hy as [Hy | [<- | []]].
        -- apply Qle_trans with best; [auto | apply Qlt_le_weak, Hlt].
        -- apply Qle_refl.
      * rewrite length_app, Nat.add_1_r, <- app_assoc in Hv.
        rewrite <- app_assoc in Hall. exists v. split; assumption.
    + apply Qltb_false in Hlt.
      destruct (IH (pre ++ [x]) best_i best) as [v [Hv Hall]].
      * rewrite nth_error_app1; [exact Hbest |].
        apply nth_error_Some. rewrite Hbest. discriminate.
      * intros y Hy. apply in_app_or in Hy. destruct Hy as [Hy | [<- | []]].
        -- auto.
        -- exact Hlt.
      * rewrite length_app, Nat.add_1_r, <- app_assoc in Hv.
        rewrite <- app_assoc in Hall. exists v. split; assumption.
Qed.

(** On a non-empty list [np.argmax] yields the position of a largest
    entry. *)
Lemma np_argmax_spec (scores : list Q) :
  scores <> [] ->
  exists k v, np_argmax scores = Ok k
              /\ nth_error scores k = Some v
              /\ forall y, In y scores -> (y <= v)%Q.
Proof.
  destruct scores as [| x rest]; [contradiction |]. intros _.
  destruct (argmax_from_spec rest [x] 0%nat x eq_refl) as [v [Hv Hall]].
  - intros y [<- | []]. apply Qle_refl.
  - exists (argmax_from 0%nat x 1%nat rest), v. repeat split; assumption.
Qed.

Lemma yolo_row_long (width height : Z) (row : list Q) (acc : candidates) :
  (6 <= length row)%nat ->
  exists acc',
    yolo_row width height row acc = Ok acc'
    /\ (in_step acc -> in_step acc')
    /\ (length (boxes acc) <= length (boxes acc'))%nat
    /\ (Exists (fun s => (1 # 2 < s)%Q) (skipn 5 row) ->
        (length (boxes acc) < length (boxes acc'))%nat).
Proof.
  intros Hlen. unfold yolo_row.
  assert (Hscores : skipn 5 row <> []).
  { intros Hnil. apply (f_equal (@length Q)) in Hnil.
    rewrite length_skipn in Hnil. simpl in Hnil. lia. }
  destruct (np_argmax_spec (skipn 5 row) Hscores) as [k [v [-> [Hv Hmax]]]].
  cbn [bind]. unfold index at 1. rewrite Hv. cbn [bind].
  assert (Hidx : forall i, (i < 4)%nat -> exists q, index row i = Ok q).
  { intros i Hi. unfold index.
    destruct (nth_error row i) as [q |] eqn:Hq; [eauto |].
    apply nth_error_None in Hq. lia. }
  destruct (Hidx 0%nat ltac:(lia)) as [d0 ->].
  destruct (Hidx 1%nat ltac:(lia)) as [d1 ->].
  destruct (Hidx 2%nat ltac:(lia)) as [d2 ->].
  destruct (Hidx 3%nat ltac:(lia)) as [d3 ->].
  cbn [bind].
  destruct (Qltb conf_threshold v) eqn:Hconf.
  - eexists. split; [reflexivity |]. unfold in_step. simpl.
    rewrite !length_app. simpl.
    split; [intros [H1 H2]; lia |]. split; [lia |]. intros _. lia.
  - exists acc. split; [reflexivity |].
    split; [auto |]. split; [lia |].
    intros Hex. exfalso. apply Exists_exists in Hex.
    destruct Hex as [s [Hs Hgt]].
    apply Qltb_false in Hconf. unfold conf_threshold in Hconf.
    apply (Qle_not_lt _ _ (Qle_trans _ _ _ (Hmax s Hs) Hconf)). exact Hgt.
Qed.

Lemma yolo_rows_long (width height : Z) (rows : list (list Q)) :
  Forall (fun row => (6 <= length row)%nat) rows ->
  forall acc, exists acc',
    yolo_rows width height rows acc = Ok acc'
    /\ (in_step acc -> in_step acc')
    /\ (length (boxes acc) <= length (boxes acc'))%nat
    /\ (Exists (fun row => Exists (fun s => (1 # 2 < s)%Q) (skipn 5 row))
          rows ->
        (length (boxes acc) < length (boxes acc'))%nat).
Proof.
  induction 1 as [| row rows Hrow _ IH]; intros acc; cbn [yolo_rows].
  - exists acc. split; [reflexivity |]. split; [auto |]. split; [lia |].
    intros Hex. inversion Hex.
  - destruct (yolo_row_long width height row acc Hrow)
      as [acc1 [-> [Hin1 [Hle1 Hlt1]]]].
    cbn [bind].
    destruct (IH acc1) as [acc' [-> [Hin [Hle Hlt]]]].
    exists acc'. split; [reflexivity |]. split; [auto |]. split; [lia |].
    intros Hex. inversion Hex as [? ? Hhere | ? ? Hlater]; subst.
    + specialize (Hlt1 Hhere). lia.
    + specialize (Hlt Hlater). lia.
Qed.

Lemma yolo_outputs_long (width height : Z)
  (outputs : list (list (list Q))) :
  Forall (Forall (fun row => (6 <= length row)%nat)) outputs ->
  forall acc, exists acc',
    yolo_outputs width height outputs acc = Ok acc'
    /\ (in_step acc -> in_step acc')
    /\ (length (boxes acc) <= length (boxes acc'))%nat
    /\ (Exists
          (Exists (fun row => Exists (fun s => (1 # 2 < s)%Q) (skipn 5 row)))
          outputs ->
        (length (boxes acc) < length (boxes acc'))%nat).
Proof.
  induction 1 as [| output outputs Hout _ IH]; intros acc;
    cbn [yolo_outputs].
  - exists acc. split; [reflexivity |]. split; [auto |]. split; [lia |].
    intros Hex. inversion Hex.
  - destruct (yolo_rows_long width height output Hout acc)
      as [acc1 [-> [Hin1 [Hle1 Hlt1]]]].
    cbn [bind].
    destruct (IH acc1) as [acc' [-> [Hin [Hle Hlt]]]].
    exists acc'. split; [reflexivity |]. split; [auto |]. split; [lia |].
    intros Hex. inversion Hex as [? ? Hhere | ? ? Hlater]; subst.
    + specialize (Hlt1 Hhere). lia.
    + specialize (Hlt Hlater). lia.
Qed.

Lemma insert_desc_nonempty (c : NMS.cand) (l : list NMS.cand) :
  NMS.insert_desc c l <> [].
Proof.
  destruct l as [| d l]; simpl; [discriminate |].
  destruct (Qltb _ _); discriminate.
Qed.

(** X13.  When the forward pass returns rows that all carry class scores
    (six entries or more) and some class score of some row exceeds 0.5,
    the model path returns at least one detection: inference does not
    fail, and suppression and emission always keep a best candidate. *)
Theorem model_path_detects (self : t) (img : image) (yolo : net)
  (outputs : list (list (list Q))) :
  yolo_net self = Some yolo ->
  net_forward yolo
    (blobFromImage (cvtColor img COLOR_RGB2BGR) (1 / 255) (416, 416)
       true false)
  = Ok outputs ->
  Forall (Forall (fun row => (6 <= length row)%nat)) outputs ->
  Exists (Exists (fun row => Exists (fun s => (1 # 2 < s)%Q) (skipn 5 row)))
    outputs ->
  _detect_with_yolo self img <> [].
Proof.
  intros Hnet Hfwd Hlong Hscore. unfold _detect_with_yolo.
  rewrite Hnet.
  destruct (shape2 (cvtColor img COLOR_RGB2BGR)) as [height width].
  rewrite Hfwd. cbn [bind].
  destruct (yolo_outputs_long width height outputs Hlong no_candidates)
    as [cands [-> [Hstep [_ Hlt]]]].
  specialize (Hlt Hscore). simpl in Hlt.
  destruct (Hstep ltac:(split; reflexivity)) as [Hconfs Hids].
  unfold NMS.NMSBoxes.
  set (all := combine (combine (seq 0 (length (boxes cands)))
                         (boxes cands)) (confidences cands)).
  set (kept := NMS.greedy nms_threshold (NMS.sort_desc all)).
  assert (Hlook : forall c, In c kept ->
    nth_error (boxes cands) (NMS.cand_index c) = Some (NMS.cand_box c)
    /\ nth_error (confidences cands) (NMS.cand_index c)
       = Some (NMS.cand_score c)).
  { intros c Hc. subst kept all.
    apply DefectDetectorSpec.greedy_In, DefectDetectorSpec.sort_desc_In,
      DefectDetectorSpec.cands_lookup in Hc.
    rewrite Nat.sub_0_r in Hc. apply Hc. }
  assert (Hkept : kept <> []).
  { subst kept.
    assert (Hall : all <> []).
    { subst all. destruct (boxes cands) as [| b bs]; simpl in *; [lia |].
      destruct (confidences cands) as [| q qs]; simpl in *; [lia |].
      discriminate. }
    destruct all as [| c rest]; [contradiction |]. simpl.
    pose proof (insert_desc_nonempty c (NMS.sort_desc rest)) as Hne.
    destruct (NMS.insert_desc c (NMS.sort_desc rest)) as [| y l];
      [contradiction |].
    simp greedy. discriminate. }
  destruct (yolo_emit_prefix (yolo_classes self) cands kept Hlook [])
    as [k [out [-> [H2 Hk]]]].
  simpl.
  assert (Hfull : k = length kept).
  { apply Hk. intros c Hc Hnone.
    destruct (Hlook c Hc) as [Hb _].
    apply nth_error_None in Hnone.
    assert (NMS.cand_index c < length (boxes cands))%nat
      by (apply nth_error_Some; rewrite Hb; discriminate).
    lia. }
  subst k. rewrite firstn_all in H2.
  destruct kept as [| c kept']; [contradiction |].
  inversion H2; subst. discriminate.
Qed.

End WithOpenCV.

(** *** Concrete runs *)

Lemma model_enabled_iff_witness :
  exists n, yolo_net (init (cv := sample_backend) model_files) = Some n.
Proof.
  apply (proj2 (model_enabled_iff (cv := sample_backend) model_files)).
  reflexivity.
Defined.

Lemma model_path_failure_is_isolated_witness :
  _detect_with_yolo (cv := truncated_backend)
    (init (cv := truncated_backend) model_files) rgb640 = []
  /\ detect (cv := truncated_backend)
       (init (cv := truncated_backend) model_files) rgb640
     = _detect_with_classical (cv := truncated_backend)
         (init (cv := truncated_backend) model_files) rgb640.
Proof.
  apply (model_path_failure_is_isolated (cv := truncated_backend)
           (init (cv := truncated_backend) model_files) rgb640 tt eq_refl).
  right. exists truncated_outputs. split; [reflexivity |].
  constructor. apply Exists_cons_tl. constructor. simpl. lia.
Defined.

Lemma model_path_types_witness :
  type {| type := "Unknown"; confidence := 9 # 10;
          bbox := (240, 240, 400, 400) |} = "Unknown".
Proof.
  apply (model_path_types (cv := sample_backend)
           (init (cv := sample_backend) model_files) rgb640).
  - vm_compute. tauto.
  - reflexivity.
Defined.

Lemma irregularity_path_emits_exactly_witness :
  _detect_surface_irregularities (cv := sample_backend) gray640
  = [ {| type := "Surface Irregularity";
         confidence := py_min (8 # 10) (500 / 5000);
         bbox := (10, 10, 110, 18) |} ].
Proof.
  rewrite (irregularity_path_emits_exactly (cv := sample_backend)
             gray640 sample_contours eq_refl).
  reflexivity.
Defined.

Lemma classical_confidence_ranges_witness :
  (1 # 10 < py_min (9 # 10) (500 / 1000))%Q.
Proof.
  apply (proj1 (classical_confidence_ranges (cv := sample_backend) gray640
                  {| type := "Crack";
                     confidence := py_min (9 # 10) (500 / 1000);
                     bbox := (10, 10, 110, 18) |})).
  vm_compute. tauto.
Defined.

Lemma classical_failure_is_isolated_witness :
  detect (cv := canny_fails) (init (cv := canny_fails) no_files) gray640
  = [ {| type := "Surface Irregularity";
         confidence := py_min (8 # 10) (500 / 5000);
         bbox := (10, 10, 110, 18) |} ].
Proof.
  rewrite (proj1 (classical_failure_is_isolated (cv := canny_fails)
                    (init (cv := canny_fails) no_files) gray640)).
  - reflexivity.
  - exists cv2_error. reflexivity.
Defined.

Lemma model_path_sorted_by_confidence_witness : (7 # 10 <= 9 # 10)%Q.
Proof.
  apply (model_path_sorted_by_confidence (cv := sample_backend)
           (init (cv := sample_backend) model_files) rgb640
           0%nat 1%nat
           {| type := "Unknown"; confidence := 9 # 10;
              bbox := (240, 240, 400, 400) |}
           {| type := "Unknown"; confidence := 7 # 10;
              bbox := (40, 40, 120, 120) |}).
  - lia.
  - vm_compute. reflexivity.
  - vm_compute. reflexivity.
Defined.

Lemma model_path_detects_witness :
  _detect_with_yolo (cv := sample_backend)
    (init (cv := sample_backend) model_files) rgb640 <> [].
Proof.
  apply (model_path_detects (cv := sample_backend)
           (init (cv := sample_backend) model_files) rgb640 tt
           sample_outputs eq_refl eq_refl).
  - repeat constructor.
  - constructor. constructor. simpl. constructor. reflexivity.
Defined.

End DefectDetectorMore.

(* ===================================================================== *)
(** ** Properties of [app.py] and [report_generator.py]                   *)
(* ===================================================================== *)

Module AppSpec.
Import App Text Counting Stored Samples.

(** *** Strings *)

Lemma contains_char_app (c : ascii) (s t : string) :
  contains_char c (s ++ t) = contains_char c s || contains_char c t.
Proof.
  induction s as [| a s IH]; simpl; [reflexivity |].
  rewrite IH, orb_assoc. reflexivity.
Qed.

Lemma rsplit_last_none (sep : ascii) (s : string) :
  rsplit_last sep s = None <-> contains_char sep s = false.
Proof.
  induction s as [| c s IH]; simpl; [tauto |].
  destruct (rsplit_last sep s) as [[before after] |].
  - split; [discriminate |]. intros H. apply orb_false_iff in H.
    destruct H as [_ H]. apply IH in H. discriminate H.
  - destruct (Ascii.eqb c sep); simpl.
    + split; discriminate.
    + split; intros _; [apply IH |]; reflexivity.
Qed.

Lemma rsplit_last_some (sep : ascii) (s before after : string) :
  rsplit_last sep s = Some (before, after)
  <-> s = (before ++ String sep after)%string
      /\ contains_char sep after = false.
Proof.
  revert before. induction s as [| c s IH]; intros before; simpl.
  - split; [discriminate |]. intros [H _].
    destruct before; discriminate H.
  - destruct (rsplit_last sep s) as [[b a] |] eqn:Hs.
    + split.
      * intros H. injection H as <- <-.
        destruct (proj1 (IH b) eq_refl) as [-> Hno]. split; [reflexivity |].
        exact Hno.
      * intros [H Hno]. destruct before as [| c' before']; simpl in H.
        -- injection H as -> ->.
           apply rsplit_last_none in Hno. rewrite Hno in Hs. discriminate Hs.
        -- injection H as -> H.
           pose proof (proj2 (IH before') (conj H Hno)) as Hb.
           injection Hb as -> ->. reflexivity.
    + apply rsplit_last_none in Hs.
      destruct (Ascii.eqb_spec c sep) as [-> | Hne].
      * split.
        -- intros H. injection H as <- <-. split; [reflexivity | exact Hs].
        -- intros [H Hno]. destruct before as [| c' before']; simpl in H.
           ++ injection H as ->. reflexivity.
           ++ injection H as _ H. exfalso. rewrite H in Hs.
              rewrite contains_char_app in Hs. simpl in Hs.
              rewrite Ascii.eqb_refl in Hs. rewrite orb_true_r in Hs.
              discriminate Hs.
      * split; [discriminate |].
        intros [H Hno]. destruct before as [| c' before']; simpl in H.
        -- injection H as H _. contradiction.
        -- injection H as _ H. exfalso. rewrite H in Hs.
           rewrite contains_char_app in Hs. simpl in Hs.
           rewrite Ascii.eqb_refl in Hs. rewrite orb_true_r in Hs.
           discriminate Hs.
Qed.

(** *** allowed_file *)

Lemma allowed_file_spec_aux (filename : string) :
  exists b,
    allowed_file filename = Ok b
    /\ (b = true <->
        exists stem ext,
          filename = (stem ++ String "." ext)%string
          /\ contains_char "." ext = false
          /\ In (lower ext) ALLOWED_EXTENSIONS).
Proof.
  unfold allowed_file, rsplit1.
  destruct (contains_char "." filename) eqn:Hdot.
  - destruct (rsplit_last "." filename) as [[before after] |] eqn:Hsplit.
    2: { apply rsplit_last_none in Hsplit. rewrite Hsplit in Hdot.
         discriminate Hdot. }
    unfold index. cbn [nth_error bind]. eexists. split; [reflexivity |].
    pose proof (proj1 (rsplit_last_some _ _ _ _) Hsplit) as [Hname Hno].
    split.
    + intros Hex. apply existsb_exists in Hex.
      destruct Hex as [e [Hin He]]. apply String.eqb_eq in He. subst e.
      exists before, after. auto.
    + intros [stem [ext [Hn [Hnodot Hin]]]].
      pose proof (proj2 (rsplit_last_some "." filename stem ext)
                    (conj Hn Hnodot)) as Hs2.
      rewrite Hsplit in Hs2. injection Hs2 as -> ->.
      apply existsb_exists. exists (lower ext). split; [exact Hin |].
      apply String.eqb_refl.
  - exists false. split; [reflexivity |]. split; [discriminate |].
    intros [stem [ext [Hn _]]]. exfalso. rewrite Hn in Hdot.
    rewrite contains_char_app in Hdot. simpl in Hdot.
    rewrite orb_true_r in Hdot. discriminate Hdot.
Qed.

(** X14.  [allowed_file] never raises, and it accepts a name exactly when
    the text after its last dot, in lower case, is one of png, jpg, jpeg,
    gif, bmp: only the last extension counts, in any letter case. *)
Theorem allowed_file_spec (filename : string) :
  exists b,
    allowed_file filename = Ok b
    /\ (b = true <->
        exists stem ext,
          filename = (stem ++ String "." ext)%string
          /\ contains_char "." ext = false
          /\ In (lower ext) ALLOWED_EXTENSIONS).
Proof. exact (allowed_file_spec_aux filename). Qed.

(** *** The dashboard filter *)

Lemma endswith_spec (s p : string) :
  endswith s p = true <-> exists pre, s = (pre ++ p)%string.
Proof.
  induction s as [| c s IH]; cbn [endswith].
  - rewrite String.eqb_eq. split.
    + intros ->. exists EmptyString. reflexivity.
    + intros [pre H]. destruct pre; [exact (eq_sym H) | discriminate H].
  - rewrite orb_true_iff, String.eqb_eq, IH. split.
    + intros [<- | [pre ->]].
      * exists EmptyString. reflexivity.
      * exists (String c pre). reflexivity.
    + intros [pre H]. destruct pre as [| c' pre]; simpl in H.
      * left. exact H.
      * injection H as _ H. right. exists pre. exact H.
Qed.

Lemma append_length (s t : string) :
  String.length (s ++ t) = (String.length s + String.length t)%nat.
Proof. induction s as [| c s IH]; simpl; [reflexivity | rewrite IH; reflexivity]. Qed.

Lemma append_assoc (s t u : string) :
  ((s ++ t) ++ u)%string = (s ++ (t ++ u))%string.
Proof. induction s as [| c s IH]; simpl; [reflexivity | rewrite IH; reflexivity]. Qed.

(** Two strings with suffixes of one length have the same suffix. *)
Lemma append_same_suffix (x y a b : string) :
  String.length a = String.length b ->
  (x ++ a)%string = (y ++ b)%string -> a = b.
Proof.
  intros Hlen. revert y. induction x as [| c x IH]; intros y H.
  - destruct y as [| d y]; [exact H |].
    apply (f_equal String.length) in H. simpl in H.
    rewrite append_length in H. lia.
  - destruct y as [| d y].
    + apply (f_equal String.length) in H. simpl in H.
      rewrite append_length in H. lia.
    + simpl in H. injection H as _ H. exact (IH y H).
Qed.

Lemma allowed_extension (stem ext : string) :
  contains_char "." ext = false ->
  In (lower ext) ALLOWED_EXTENSIONS ->
  allowed_file (stem ++ String "." ext) = Ok true.
Proof.
  intros Hno Hin.
  destruct (allowed_file_spec_aux (stem ++ String "." ext)) as [b [-> Hb]].
  f_equal. apply Hb. exists stem, ext. auto.
Qed.

(** X15.  Every name the dashboard lists has an extension [allowed_file]
    accepts, but not the other way round: a [.bmp] upload is accepted and
    its annotated image is never listed. *)
Theorem dashboard_filter_is_narrower :
  (forall f, dashboard_lists f = true -> allowed_file f = Ok true)
  /\ (forall stem,
        allowed_file (stem ++ ".bmp") = Ok true
        /\ dashboard_lists (output_filename (stem ++ ".bmp")) = false).
Proof.
  split.
  - intros f Hf. unfold dashboard_lists in Hf.
    rewrite !orb_true_iff, !endswith_spec in Hf.
    destruct Hf as [[[pre ->] | [pre ->]] | [pre ->]];
      apply allowed_extension; simpl; auto 6.
  - intros stem. split.
    + apply (allowed_extension stem "bmp"); simpl; auto 6.
    + unfold dashboard_lists, output_filename.
      rewrite !orb_false_iff. repeat split;
        apply not_true_is_false; intros H; apply endswith_spec in H;
        destruct H as [pre H].
      * rewrite <- append_assoc in H.
        apply append_same_suffix in H; [discriminate H | reflexivity].
      * rewrite <- append_assoc in H.
        apply append_same_suffix in H; [discriminate H | reflexivity].
      * change ".jpeg" with ("." ++ "jpeg")%string in H.
        rewrite <- !append_assoc in H.
        apply append_same_suffix in H; [discriminate H | reflexivity].
Qed.

(** *** The results file *)

Lemma startswith_spec (s p : string) :
  startswith s p = true <-> exists t, s = (p ++ t)%string.
Proof.
  revert s. induction p as [| a p IH]; intros s.
  - split; [intros _; exists s; reflexivity | destruct s; reflexivity].
  - destruct s as [| b s]; cbn [startswith append].
    + split; [discriminate | intros [t H]; discriminate H].
    + rewrite andb_true_iff, Ascii.eqb_eq, IH. split.
      * intros [-> [t ->]]. exists t. reflexivity.
      * intros [t H]. injection H as -> ->. split; [reflexivity |].
        exists t. reflexivity.
Qed.

Lemma replace_from_skip (old new p s : string) :
  replace_from old new (String.length p) (p ++ s)
  = replace_from old new 0 s.
Proof. induction p as [| c p IH]; simpl; [reflexivity | exact IH]. Qed.

Lemma str_replace_prefix (old new s : string) :
  old <> EmptyString ->
  str_replace (old ++ s) old new = (new ++ str_replace s old new)%string.
Proof.
  intros Hold. destruct old as [| a o]; [contradiction |].
  unfold str_replace. cbn [append replace_from].
  replace (startswith (String a (o ++ s)) (String a o)) with true
    by (symmetry; apply startswith_spec; exists s; reflexivity).
  cbn [String.length]. rewrite Nat.sub_succ, Nat.sub_0_r.
  rewrite replace_from_skip. reflexivity.
Qed.

Lemma str_replace_absent (old new s : string) :
  ~ occurs old s -> str_replace s old new = s.
Proof.
  unfold str_replace. induction s as [| c s IH]; intros Hno;
    cbn [replace_from]; [reflexivity |].
  destruct (startswith (String c s) old) eqn:Hsw.
  - exfalso. apply startswith_spec in Hsw. destruct Hsw as [t Ht].
    apply Hno. exists EmptyString, t. exact Ht.
  - f_equal. apply IH. intros [pre [post H]]. apply Hno.
    exists (String c pre), post. rewrite H. reflexivity.
Qed.

Lemma replace_from_length (old : string) (s : string) :
  forall k,
    (String.length (replace_from old EmptyString k s) <= String.length s)%nat.
Proof.
  induction s as [| c s IH]; intros k; cbn [replace_from]; [simpl; lia |].
  destruct k as [| k].
  - destruct (startswith (String c s) old).
    + cbn [append String.length]. specialize (IH (String.length old - 1)%nat).
      lia.
    + cbn [String.length]. specialize (IH 0%nat). lia.
  - cbn [String.length]. specialize (IH k). lia.
Qed.

Lemma str_replace_shortens (old s : string) :
  old <> EmptyString -> occurs old s ->
  (String.length (str_replace s old EmptyString) < String.length s)%nat.
Proof.
  intros Hold. unfold str_replace.
  induction s as [| c s IH]; intros [pre [post H]].
  - exfalso. destruct pre; [| discriminate H].
    destruct old; [contradiction | discriminate H].
  - cbn [replace_from].
    destruct (startswith (String c s) old) eqn:Hsw.
    + cbn [append String.length].
      pose proof (replace_from_length old s (String.length old - 1)). lia.
    + cbn [String.length]. apply -> Nat.succ_lt_mono. apply IH.
      destruct pre as [| c' pre]; simpl in H.
      * exfalso. assert (Ht : startswith (String c s) old = true)
          by (apply startswith_spec; exists post; exact H).
        rewrite Ht in Hsw. discriminate Hsw.
      * injection H as _ H. exists pre, post. exact H.
Qed.

(** X16.  The results file a route looks up for an annotated image is the
    one [upload] wrote for it exactly when the stored file name does not
    itself contain the text "processed_": [replace] removes every
    occurrence, not only the prefix. *)
Theorem results_file_round_trip (filename : string) :
  results_file_read (output_filename filename) = results_file_written filename
  <-> ~ occurs "processed_" filename.
Proof.
  unfold results_file_read, results_file_written, output_filename.
  rewrite str_replace_prefix by discriminate.
  cbn [append]. split.
  - intros Heq Hocc.
    apply (str_replace_shortens "processed_" filename) in Hocc;
      [| discriminate].
    apply (f_equal String.length) in Heq.
    unfold os_path_join in Heq. cbn in Heq.
    rewrite !append_length in Heq. lia.
  - intros Hno. rewrite (str_replace_absent _ _ _ Hno). reflexivity.
Qed.

(** *** The type breakdown *)

Lemma get_set_same {V : Type} (m : PyDict.t V) (k : string) (v d : V) :
  PyDict.get (PyDict.set m k v) k d = v.
Proof.
  induction m as [| [k' v'] m IH]; simpl.
  - rewrite String.eqb_refl. reflexivity.
  - destruct (String.eqb k k') eqn:Hk; simpl; rewrite Hk; auto.
Qed.

Lemma get_set_other {V : Type} (m : PyDict.t V) (k k' : string) (v d : V) :
  k <> k' -> PyDict.get (PyDict.set m k v) k' d = PyDict.get m k' d.
Proof.
  intros Hne. induction m as [| [k0 v0] m IH]; simpl.
  - replace (String.eqb k' k) with false
      by (symmetry; apply String.eqb_neq; auto).
    reflexivity.
  - destruct (String.eqb k k0) eqn:Hk; simpl.
    + apply String.eqb_eq in Hk. subst k0.
      replace (String.eqb k' k) with false
        by (symmetry; apply String.eqb_neq; auto).
      reflexivity.
    + destruct (String.eqb k' k0); [reflexivity | exact IH].
Qed.

Lemma mem_spec {V : Type} (m : PyDict.t V) (k : string) :
  PyDict.mem m k = true <-> In k (map fst m).
Proof.
  induction m as [| [k' v'] m IH]; simpl; [split; [discriminate | tauto] |].
  rewrite orb_true_iff, String.eqb_eq, IH. split; intros [H | H]; auto.
Qed.

Lemma keys_set {V : Type} (m : PyDict.t V) (k : string) (v : V) :
  map fst (PyDict.set m k v)
  = if PyDict.mem m k then map fst m else map fst m ++ [k].
Proof.
  induction m as [| [k' v'] m IH]; simpl; [reflexivity |].
  destruct (String.eqb k k') eqn:Hk; simpl; [reflexivity |].
  rewrite IH. destruct (PyDict.mem m k); reflexivity.
Qed.

Lemma total_set_incr (m : PyDict.t Z) (k : string) :
  total (PyDict.set m k (PyDict.get m k 0 + 1)) = total m + 1.
Proof.
  unfold total. induction m as [| [k' v'] m IH]; simpl; [lia |].
  destruct (String.eqb k k'); simpl; lia.
Qed.

Lemma count_types_spec (dets : list json_det) :
  forall acc,
    (forall t, PyDict.get (count_types dets acc) t 0
               = PyDict.get acc t 0 + occurrences t (map det_type dets))
    /\ total (count_types dets acc) = total acc + Z.of_nat (length dets)
    /\ (NoDup (map fst acc) -> NoDup (map fst (count_types dets acc)))
    /\ (forall t, In t (map fst (count_types dets acc))
                  <-> In t (map fst acc) \/ In t (map det_type dets)).
Proof.
  unfold occurrences.
  induction dets as [| det dets IH]; intros acc; cbn [count_types].
  - simpl. repeat split; try tauto; try lia; intros [H | []]; exact H.
  - set (k := det_type det).
    set (acc1 := PyDict.set acc k (PyDict.get acc k 0 + 1)).
    destruct (IH acc1) as [Hget [Htot [Hnd Hkeys]]].
    split; [| split; [| split]].
    + intros t. rewrite Hget. cbn [map count_occ]. fold k.
      destruct (string_dec k t) as [-> | Hne].
      * subst acc1. rewrite get_set_same. lia.
      * subst acc1. rewrite get_set_other by exact Hne. lia.
    + rewrite Htot. subst acc1. rewrite total_set_incr.
      cbn [length]. lia.
    + intros Hacc. apply Hnd. subst acc1. rewrite keys_set.
      destruct (PyDict.mem acc k) eqn:Hmem; [exact Hacc |].
      apply NoDup_app; [exact Hacc | repeat constructor; auto |].
      intros x Hx [<- | []].
      apply mem_spec in Hx. rewrite Hx in Hmem. discriminate Hmem.
    + intros t. rewrite Hkeys. subst acc1. rewrite keys_set.
      cbn [map]. fold k.
      destruct (PyDict.mem acc k) eqn:Hmem.
      * apply mem_spec in Hmem. simpl. split.
        -- intros [H | H]; auto.
        -- intros [H | [<- | H]]; auto.
      * rewrite in_app_iff. simpl. tauto.
Qed.

(** X17.  The type breakdown counts every detection once: the count
    stored for a type is the number of detections of that type (a missing
    type counting as "Unknown"), each type has one entry, and a type has an
    entry exactly when some detection has it. *)
Theorem type_breakdown_counts (dets : list json_det) (t : string) :
  PyDict.get (count_types dets []) t 0
  = occurrences t (map det_type dets)
  /\ NoDup (map fst (count_types dets []))
  /\ (PyDict.mem (count_types dets []) t = true
      <-> In t (map det_type dets)).
Proof.
  destruct (count_types_spec dets []) as [Hget [_ [Hnd Hkeys]]].
  split; [| split].
  - rewrite Hget. simpl. lia.
  - apply Hnd. constructor.
  - rewrite mem_spec, Hkeys. simpl. tauto.
Qed.

Lemma det_type_to_json (d : detection) : det_type (to_json d) = type d.
Proof.
  unfold to_json, det_type. destruct (bbox d) as [[[x1 y1] x2] y2].
  reflexivity.
Qed.

(** X18.  For the record [upload] stores, the defect count is the number
    of stored detections and the sum of the counts of the breakdown the
    results page shows, and the breakdown counts the detector's types. *)
Theorem upload_record_is_consistent (filename timestamp : string)
  (detection_results : list detection) :
  let r := upload_record filename timestamp detection_results in
  defect_count r = Some (Z.of_nat (length (get_detections r)))
  /\ defect_count r = Some (total (results_defect_types r))
  /\ forall t, PyDict.get (results_defect_types r) t 0
               = occurrences t (map type detection_results).
Proof.
  intros r. subst r. unfold results_defect_types, upload_record,
    get_detections. cbn [detections defect_count].
  destruct (count_types_spec (map to_json detection_results) [])
    as [Hget [Htot _]].
  rewrite length_map. split; [reflexivity |]. split.
  - rewrite Htot, length_map. reflexivity.
  - intros t. rewrite Hget, map_map.
    rewrite (map_ext _ type det_type_to_json). simpl. lia.
Qed.

(** *** CSV export *)

Lemma index_nth (l : list Z) (i : nat) :
  (i < length l)%nat -> index l i = Ok (nth i l 0).
Proof.
  intros Hi. unfold index.
  rewrite (nth_error_nth' l 0 Hi). reflexivity.
Qed.

Lemma coordinate_nth (bbox : list Z) (i : nat) :
  coordinate bbox i = Ok (nth i bbox 0).
Proof.
  unfold coordinate. destruct (Nat.ltb_spec i (length bbox)) as [Hlt | Hge].
  - apply index_nth. exact Hlt.
  - rewrite nth_overflow by exact Hge. reflexivity.
Qed.

Lemma csv_row_unfold (format_2f : Q -> string) (idx : Z) (det : json_det) :
  csv_row format_2f idx det
  = (text <- DefectDetector.format_confidence format_2f
               (det_confidence det) ;;
     Ok [ CellInt idx; CellStr (det_type det); CellStr text;
          CellInt (coord det 0); CellInt (coord det 1);
          CellInt (coord det 2); CellInt (coord det 3);
          CellInt (export_area det) ]).
Proof.
  unfold csv_row, export_area, coord.
  rewrite !coordinate_nth.
  destruct (Nat.eqb_spec (length (det_bbox det)) 4) as [Hlen | Hlen].
  - rewrite !index_nth by lia. reflexivity.
  - reflexivity.
Qed.

Lemma format_confidence_ok (format_2f : Q -> string) (det : json_det) :
  (exists text,
     DefectDetector.format_confidence format_2f (det_confidence det)
     = Ok text)
  <-> formattable det.
Proof.
  unfold formattable, DefectDetector.format_confidence.
  destruct (det_confidence det); split;
    try (intros _; exact I); try (intros _; eexists; reflexivity);
    try (intros [text H]; discriminate H); intros [].
Qed.

(** X19.  The CSV row of a detection whose confidence is a number never
    fails on the box: coordinates the stored box lacks are written as 0,
    and the area is [(x2 - x1) * (y2 - y1)] for a box of exactly four
    coordinates and 0 for any other. *)
Theorem csv_row_cells (format_2f : Q -> string) (idx : Z) (det : json_det) :
  formattable det ->
  exists text,
    DefectDetector.format_confidence format_2f (det_confidence det) = Ok text
    /\ csv_row format_2f idx det
       = Ok [ CellInt idx; CellStr (det_type det); CellStr text;
              CellInt (coord det 0); CellInt (coord det 1);
              CellInt (coord det 2); CellInt (coord det 3);
              CellInt (export_area det) ].
Proof.
  intros Hf. apply (format_confidence_ok format_2f) in Hf.
  destruct Hf as [text Ht]. exists text. split; [exact Ht |].
  rewrite csv_row_unfold, Ht. reflexivity.
Qed.

Lemma csv_rows_spec (format_2f : Q -> string) (dets : list json_det) :
  forall idx,
    ((exists rows, csv_rows format_2f idx dets = Ok rows)
     <-> Forall formattable dets)
    /\ forall rows, csv_rows format_2f idx dets = Ok rows ->
         length rows = length dets
         /\ forall k row, nth_error rows k = Some row ->
              hd_error row = Some (CellInt (idx + Z.of_nat k)).
Proof.
  induction dets as [| det dets IH]; intros idx; cbn [csv_rows].
  - split; [split; [constructor | eexists; reflexivity] |].
    intros rows H. injection H as <-. split; [reflexivity |].
    intros k row Hk. destruct k; discriminate Hk.
  - rewrite csv_row_unfold.
    destruct (IH (idx + 1)) as [Hiff Hrows].
    destruct (DefectDetector.format_confidence format_2f
                (det_confidence det)) as [text |] eqn:Ht; cbn [bind].
    + assert (Hf : formattable det)
        by (apply (format_confidence_ok format_2f); eauto).
      destruct (csv_rows format_2f (idx + 1) dets) as [rows' |] eqn:Hr;
        cbn [bind].
      * split.
        -- split; [| eexists; reflexivity].
           intros _. constructor; [exact Hf |]. apply Hiff. eauto.
        -- intros rows H. injection H as <-.
           destruct (Hrows rows' eq_refl) as [Hlen Hnth].
           split; [simpl; lia |].
           intros k row Hk. destruct k as [| k]; simpl in Hk.
           ++ injection Hk as <-. simpl. rewrite Z.add_0_r. reflexivity.
           ++ rewrite (Hnth k row Hk). f_equal. f_equal. lia.
      * split; [| intros rows H; discriminate H].
        split; [intros [rows H]; discriminate H |].
        intros Hall. inversion Hall; subst.
        apply Hiff in H2. destruct H2 as [rows H2]. discriminate H2.
    + split; [| intros rows H; discriminate H].
      split; [intros [rows H]; discriminate H |].
      intros Hall. inversion Hall as [| ? ? Hd _]; subst.
      apply (format_confidence_ok format_2f) in Hd.
      destruct Hd as [text Hd]. rewrite Hd in Ht. discriminate Ht.
Qed.

(** X20.  The CSV export succeeds exactly when every stored confidence is
    a number or is missing, whatever the length of the stored boxes; it
    then writes the header and one row per detection, numbered from 1 in
    the stored order. *)
Theorem export_csv_rows_spec (format_2f : Q -> string) (r : results_data) :
  ((exists rows, export_csv_rows format_2f r = Ok rows)
   <-> Forall formattable (get_detections r))
  /\ forall rows, export_csv_rows format_2f r = Ok rows ->
       nth_error rows 0 = Some csv_header
       /\ length rows = S (length (get_detections r))
       /\ forall k row, nth_error rows (S k) = Some row ->
            hd_error row = Some (CellInt (Z.of_nat (S k))).
Proof.
  unfold export_csv_rows.
  destruct (csv_rows_spec format_2f (get_detections r) 1) as [Hiff Hrows].
  destruct (csv_rows format_2f 1 (get_detections r)) as [rows' |] eqn:Hr;
    cbn [bind].
  - split.
    + split; [intros _; apply Hiff; eauto | intros _; eexists; reflexivity].
    + intros rows H. injection H as <-.
      destruct (Hrows rows' eq_refl) as [Hlen Hnth].
      split; [reflexivity |]. split; [simpl; lia |].
      intros k row Hk. simpl in Hk. rewrite (Hnth k row Hk).
      f_equal. f_equal. lia.
  - split; [| intros rows H; discriminate H].
    split; [intros [rows H]; discriminate H |].
    intros Hall. apply Hiff in Hall. destruct Hall as [rows H].
    discriminate H.
Qed.

(** *** The PDF report *)

Lemma index_ok_iff (l : list Z) (i : nat) :
  (exists v, index l i = Ok v) <-> (i < length l)%nat.
Proof.
  unfold index. split.
  - intros [v H]. destruct (nth_error l i) eqn:Hn; [| discriminate H].
    apply nth_error_Some. rewrite Hn. discriminate.
  - intros Hi. rewrite (nth_error_nth' l 0 Hi). eexists. reflexivity.
Qed.

Lemma details_row_ok_iff (format_2f : Q -> string) (idx : Z)
  (det : json_det) :
  (exists row, ReportGenerator.details_row format_2f idx det = Ok row)
  <-> (4 <= length (det_bbox det))%nat /\ formattable det.
Proof.
  unfold ReportGenerator.details_row. split.
  - intros [row H].
    destruct (index (det_bbox det) 0) as [b0 |]; [| discriminate H].
    destruct (index (det_bbox det) 1) as [b1 |]; [| discriminate H].
    destruct (index (det_bbox det) 2) as [b2 |]; [| discriminate H].
    destruct (index (det_bbox det) 3) as [b3 |] eqn:H3; [| discriminate H].
    cbn [bind] in H. split.
    + apply index_ok_iff. eauto.
    + apply (format_confidence_ok format_2f).
      destruct (DefectDetector.format_confidence _ _) as [text |];
        [eauto | discriminate H].
  - intros [Hlen Hf]. rewrite !index_nth by lia. cbn [bind].
    apply (format_confidence_ok format_2f) in Hf. destruct Hf as [text ->].
    eexists. reflexivity.
Qed.

Lemma details_rows_ok_iff (format_2f : Q -> string) (dets : list json_det) :
  forall idx,
    (exists rows, ReportGenerator.details_rows format_2f idx dets = Ok rows)
    <-> Forall (fun det => (4 <= length (det_bbox det))%nat
                           /\ formattable det) dets.
Proof.
  induction dets as [| det dets IH]; intros idx;
    cbn [ReportGenerator.details_rows].
  - split; [constructor | eexists; reflexivity].
  - pose proof (details_row_ok_iff format_2f idx det) as Hrow.
    specialize (IH (idx + 1)).
    destruct (ReportGenerator.details_row format_2f idx det) as [row |];
      cbn [bind].
    + destruct (ReportGenerator.details_rows format_2f (idx + 1) dets)
        as [rows |]; cbn [bind].
      * split; [| eexists; reflexivity].
        intros _. constructor; [apply Hrow; eauto | apply IH; eauto].
      * split; [intros [rows H]; discriminate H |].
        intros Hall. inversion Hall; subst.
        apply IH in H2. destruct H2 as [rows H2]. discriminate H2.
    + split; [intros [rows H]; discriminate H |].
      intros Hall. inversion Hall as [| ? ? Hd _]; subst.
      apply Hrow in Hd. destruct Hd as [row Hd]. discriminate Hd.
Qed.

(** X21.  The report is generated exactly when every stored detection has
    a box of at least four coordinates and a confidence that is a number
    or is missing, and [doc.build] succeeds: unlike the CSV export, the
    report raises on a stored box with fewer than four coordinates.  A
    record without detections always yields a report. *)
Theorem generate_returns_iff (format_2f : Q -> string)
  (image_loads : string -> result unit)
  (doc_build : string -> list ReportGenerator.flowable -> result unit)
  (self : ReportGenerator.t) (now_stamp now_text : string)
  (path_exists : string -> bool) (r : results_data) (image_path : string) :
  let story :=
    ReportGenerator.build_story format_2f image_loads now_text path_exists
      r image_path in
  ((exists flowables, story = Ok flowables)
   <-> Forall (fun det => (4 <= length (det_bbox det))%nat
                          /\ formattable det) (get_detections r))
  /\ ((exists pdf_path,
         ReportGenerator.generate format_2f image_loads doc_build self
           now_stamp now_text path_exists r image_path = Ok pdf_path)
      <-> exists flowables,
            story = Ok flowables
            /\ doc_build
                 (os_path_join (ReportGenerator.report_dir self)
                    ("defect_report_" ++ now_stamp ++ ".pdf"))
                 flowables = Ok tt).
Proof.
  intros story. split.
  - subst story. unfold ReportGenerator.build_story.
    pose proof (details_rows_ok_iff format_2f (get_detections r) 1) as Hrows.
    destruct (get_detections r) as [| det dets] eqn:Hdets.
    + cbn [bind]. split; [constructor |]. intros _.
      destruct (path_exists image_path); [| eexists; reflexivity].
      destruct (image_loads image_path); eexists; reflexivity.
    + destruct (ReportGenerator.details_rows format_2f 1 (det :: dets))
        as [rows |]; cbn [bind].
      * split; [intros _; apply Hrows; eauto |]. intros _.
        destruct (path_exists image_path); [| eexists; reflexivity].
        destruct (image_loads image_path); eexists; reflexivity.
      * split; [intros [f H]; discriminate H |].
        intros Hall. apply Hrows in Hall. destruct Hall as [rows H].
        discriminate H.
  - unfold ReportGenerator.generate. fold story.
    destruct story as [flowables | e]; cbn [bind].
    + destruct (doc_build _ flowables) as [[] | e] eqn:Hb; cbn [bind].
      * split; [intros _; exists flowables; auto | eauto].
      * split; [intros [p H]; discriminate H |].
        intros [f [Hf Hd]]. injection Hf as <-. rewrite Hd in Hb.
        discriminate Hb.
    + split; [intros [p H]; discriminate H |].
      intros [f [Hf _]]. discriminate Hf.
Qed.

(** *** Accounts *)

Section Accounts.
Variable generate_password_hash : string -> string -> string.
Variable check_password_hash : string -> option string -> result bool.

(** The two outcomes of [register]. *)
Lemma register_cases (USERS : PyDict.t string) (salt : string)
  (username password confirm_password : option string) :
  let accepted :=
    exists u p,
      username = Some u /\ password = Some p /\ confirm_password = Some p
      /\ u <> "" /\ p <> "" /\ PyDict.mem USERS u = false in
  (exists u p,
     (username = Some u /\ password = Some p /\ confirm_password = Some p
      /\ u <> "" /\ p <> "" /\ PyDict.mem USERS u = false)
     /\ register generate_password_hash USERS salt username password
          confirm_password
        = (PyDict.set USERS u (generate_password_hash p salt),
           ("Registration successful! Please log in.", "success")))
  \/ (~ accepted
      /\ exists msg,
           register generate_password_hash USERS salt username password
             confirm_password
           = (USERS, (msg, "error"))).
Proof.
  intros accepted. subst accepted. unfold register, blank.
  destruct username as [u |], password as [p |], confirm_password as [c |];
    try (right; split; [intros (u' & p' & H1 & H2 & H3 & _); discriminate
                       | eexists; reflexivity]).
  destruct (String.eqb_spec u "") as [-> | Hu]; cbn [orb].
  { right. split; [| eexists; reflexivity].
    intros (u' & p' & H1 & _ & _ & Hne & _). injection H1 as <-.
    contradiction. }
  destruct (String.eqb_spec p "") as [-> | Hp]; cbn [orb].
  { right. split; [| eexists; reflexivity].
    intros (u' & p' & _ & H2 & _ & _ & Hne & _). injection H2 as <-.
    contradiction. }
  destruct (String.eqb_spec c "") as [-> | Hc]; cbn [orb].
  { right. split; [| eexists; reflexivity].
    intros (u' & p' & _ & H2 & H3 & _ & Hne & _). injection H3 as <-.
    contradiction. }
  destruct (String.eqb_spec p c) as [<- | Hpc]; cbn [negb].
  2: { right. split; [| eexists; reflexivity].
       intros (u' & p' & _ & H2 & H3 & _). injection H2 as <-.
       injection H3 as <-. contradiction. }
  destruct (PyDict.mem USERS u) eqn:Hmem.
  { right. split; [| eexists; reflexivity].
    intros (u' & p' & H1 & _ & _ & _ & _ & Hm). injection H1 as <-.
    rewrite Hmem in Hm. discriminate Hm. }
  left. exists u, p. split; [auto 7 | reflexivity].
Qed.

(** X22.  [register] adds an account exactly when the three fields are
    filled in, the passwords agree and the name is new; it then stores the
    hash under that name.  It never changes or removes an existing
    account, and a refused registration leaves the user table as it
    was. *)
Theorem register_spec (USERS : PyDict.t string) (salt : string)
  (username password confirm_password : option string) :
  let outcome :=
    register generate_password_hash USERS salt username password
      confirm_password in
  (snd (snd outcome) = "success"
   <-> exists u p,
         username = Some u /\ password = Some p
         /\ confirm_password = Some p
         /\ u <> "" /\ p <> "" /\ PyDict.mem USERS u = false)
  /\ (snd (snd outcome) <> "success" -> fst outcome = USERS)
  /\ (forall u p, username = Some u -> password = Some p ->
        snd (snd outcome) = "success" ->
        PyDict.get (fst outcome) u "" = generate_password_hash p salt)
  /\ (forall k, PyDict.mem USERS k = true ->
        PyDict.mem (fst outcome) k = true
        /\ PyDict.get (fst outcome) k "" = PyDict.get USERS k "").
Proof.
  intros outcome. subst outcome.
  destruct (register_cases USERS salt username password confirm_password)
    as [(u & p & Hacc & ->) | (Hno & msg & ->)]; cbn [fst snd].
  - destruct Hacc as (Hu & Hp & Hc & Hune & Hpne & Hmem).
    split; [| split; [| split]].
    + split; [| reflexivity]. intros _. exists u, p. auto 7.
    + intros H. contradiction.
    + intros u' p' Hu' Hp' _. rewrite Hu in Hu'. rewrite Hp in Hp'.
      injection Hu' as <-. injection Hp' as <-. apply get_set_same.
    + intros k Hk. assert (Hne : u <> k).
      { intros ->. rewrite Hk in Hmem. discriminate Hmem. }
      split.
      * apply mem_spec. rewrite keys_set, Hmem. apply in_or_app. left.
        apply mem_spec. exact Hk.
      * apply get_set_other. exact Hne.
  - split; [| split; [| split]].
    + split; [discriminate | intros H; contradiction].
    + reflexivity.
    + intros u p _ _ H. discriminate H.
    + auto.
Qed.

Hypothesis check_after_generate :
  forall password salt,
    check_password_hash (generate_password_hash password salt)
      (Some password) = Ok true.

(** X23.  After a successful registration, logging in with the same name
    and password succeeds and puts that name into the session, provided
    the password scheme accepts the hashes it generates. *)
Theorem register_then_login (USERS : PyDict.t string) (salt : string)
  (u p : string) (session : option string) :
  snd (snd (register generate_password_hash USERS salt
              (Some u) (Some p) (Some p))) = "success" ->
  login_post check_password_hash
    (fst (register generate_password_hash USERS salt
            (Some u) (Some p) (Some p)))
    session (Some u) (Some p)
  = Ok (Some u, ("Login successful!", "success")).
Proof.
  destruct (register_cases USERS salt (Some u) (Some p) (Some p))
    as [(u' & p' & Hacc & ->) | (_ & msg & ->)]; cbn [fst snd];
    [| discriminate].
  destruct Hacc as (Hu & Hp & _). injection Hu as <-. injection Hp as <-.
  intros _. unfold login_post.
  assert (Hmem : PyDict.mem
                   (PyDict.set USERS u (generate_password_hash p salt)) u
                 = true).
  { apply mem_spec. rewrite keys_set.
    destruct (PyDict.mem USERS u) eqn:Hm.
    - apply mem_spec. exact Hm.
    - apply in_or_app. right. left. reflexivity. }
  rewrite Hmem, get_set_same, check_after_generate. reflexivity.
Qed.

(** X24.  [login] puts a name into the session only for a known account
    whose password check passes; a wrong name or password leaves the
    session as it was, and the call raises only when the password check
    itself raises. *)
Theorem login_post_spec (USERS : PyDict.t string) (session : option string)
  (username password : option string) :
  match login_post check_password_hash USERS session username password with
  | Ok (session', (_, category)) =>
      (category = "success"
       /\ session' = username
       /\ exists u, username = Some u /\ PyDict.mem USERS u = true
                    /\ check_password_hash (PyDict.get USERS u "") password
                       = Ok true)
      \/ (category = "error" /\ session' = session)
  | Raise e =>
      exists u, username = Some u /\ PyDict.mem USERS u = true
                /\ check_password_hash (PyDict.get USERS u "") password
                   = Raise e
  end.
Proof.
  unfold login_post. destruct username as [u |]; [| right; auto].
  destruct (PyDict.mem USERS u) eqn:Hmem; [| right; auto].
  destruct (check_password_hash (PyDict.get USERS u "") password)
    as [[|] | e] eqn:Hcheck; cbn [bind].
  - left. repeat split. exists u. auto.
  - right. auto.
  - exists u. auto.
Qed.

End Accounts.

(** *** Processing an upload *)


(** *** Concrete runs *)

Lemma allowed_file_spec_witness : allowed_file "shell.php.PNG" = Ok true.
Proof.
  destruct (allowed_file_spec "shell.php.PNG") as [b [Hb Hiff]].
  rewrite Hb. f_equal. apply Hiff.
  exists "shell.php", "PNG". simpl. auto.
Defined.

Lemma results_file_round_trip_witness :
  results_file_read (output_filename "20240101_120000_processed_part.png")
  <> results_file_written "20240101_120000_processed_part.png".
Proof.
  intros H. apply (proj1 (results_file_round_trip _)) in H. apply H.
  exists "20240101_120000_", "part.png". reflexivity.
Defined.

Lemma csv_row_cells_witness :
  csv_row Canned.format_2f 1 short_stored
  = Ok [ CellInt 1; CellStr "Crack"; CellStr "0.50";
         CellInt 10; CellInt 10; CellInt 110; CellInt 0; CellInt 0 ].
Proof.
  destruct (csv_row_cells Canned.format_2f 1 short_stored I)
    as [text [Ht Hrow]].
  injection Ht as <-. exact Hrow.
Defined.

Lemma export_csv_rows_spec_witness :
  exists rows, export_csv_rows Canned.format_2f short_record = Ok rows.
Proof.
  apply (proj2 (proj1 (export_csv_rows_spec Canned.format_2f short_record))).
  repeat constructor.
Defined.

Lemma generate_returns_iff_witness :
  ~ exists flowables,
      ReportGenerator.build_story Canned.format_2f (fun _ => Ok tt)
        "2024-01-01 12:00:00" (fun _ => true) short_record
        "static/processed/processed_part.png" = Ok flowables.
Proof.
  intros H.
  apply (proj1 (proj1 (generate_returns_iff Canned.format_2f
                         (fun _ => Ok tt) (fun _ _ => Ok tt)
                         ReportGenerator.init "20240101_120000"
                         "2024-01-01 12:00:00" (fun _ => true) short_record
                         "static/processed/processed_part.png"))) in H.
  inversion H as [| ? ? [Hlen _] _]; subst. simpl in Hlen. lia.
Defined.

Lemma register_spec_witness :
  fst (register plain_hash (initial_users plain_hash "s1" "s2") "s3"
         (Some "admin") (Some "secret") (Some "secret"))
  = initial_users plain_hash "s1" "s2".
Proof.
  apply (proj1 (proj2 (register_spec plain_hash
                         (initial_users plain_hash "s1" "s2") "s3"
                         (Some "admin") (Some "secret") (Some "secret")))).
  discriminate.
Defined.

Lemma register_then_login_witness :
  login_post plain_check
    (fst (register plain_hash (initial_users plain_hash "s1" "s2") "s3"
            (Some "inspector") (Some "secret") (Some "secret")))
    None (Some "inspector") (Some "secret")
  = Ok (Some "inspector", ("Login successful!", "success")).
Proof.
  apply (register_then_login plain_hash plain_check).
  - intros password salt. unfold plain_check, plain_hash.
    rewrite String.eqb_refl. reflexivity.
  - reflexivity.
Defined.

End AppSpec.
